(** * Library lending service (GraphQL resolvers over Mongoose models)

    A shallow embedding of the resolvers of the two server files of the
    repository (called [Part001], the version with [AppError] codes and
    identifier validation, and [Part000], the earlier version without them)
    and of the Mongoose schemas of [models/book.js] and [models/borrowing.js].

    - A collection is a finite map from [_id] to document.
    - A resolver is a program [Prog A]: a tree whose nodes are the awaited
      database calls of the source, in the order of the source.  [run] executes
      such a program to completion on a database (one request at a time);
      [interleave] advances several requests one awaited call at a time.
    - Dates are milliseconds since the epoch ([Z]); [new Date()] is the [now]
      argument of a resolver.  JavaScript numbers that hold copy counts are
      integers ([Z]). *)

From stdpp Require Import gmap strings list fin_maps.
From Stdlib Require Import ZArith Lia Ascii.

Local Open Scope string_scope.
Local Open Scope Z_scope.

(** ** Data model *)

(** An ObjectId, seen as the number its 12 bytes spell. *)
Abbreviation ObjectId := N (only parsing).

(** A GraphQL [ID] argument: a string that [mongoose.Types.ObjectId.isValid]
    accepts, identified with the ObjectId it casts to, or any other string.
    The test [isValid(id)] of the resolvers is the match on this type. *)
Inductive ID : Type :=
| ValidId (oid : ObjectId)
| InvalidId (s : string).

(** What a resolver can throw. *)
Inductive Exn : Type :=
| AppError (message code : string)
| Error (message : string)
| TypeError (message : string)
| CastError (message : string)
| ValidationError (path : string)
| MongoServerError (message : string).

Inductive Result (A : Type) : Type :=
| Ok (a : A)
| Err (e : Exn).
Arguments Ok {A} a.
Arguments Err {A} e.

(** models/book.js: the paths of [bookSchema].  A document is kept in its
    collection under its [_id], and a resolver holds a document as the pair of
    its [_id] and its paths. *)
Record Book : Type := mkBook {
  title : string;
  author : string;
  category : option string;
  isbn : option string;
  availableCopies : Z;
}.

(** models/borrowing.js: [member] and [book] are references (ObjectIds). *)
Record Borrowing : Type := mkBorrowing {
  member : ObjectId;
  book : ObjectId;
  borrowDate : Z;
  returnDate : option Z;
  returned : bool;
}.

Definition set_availableCopies (n : Z) (b : Book) : Book :=
  mkBook (title b) (author b) (category b) (isbn b) n.

Definition set_returned (r : bool) (d : option Z) (br : Borrowing) : Borrowing :=
  mkBorrowing (member br) (book br) (borrowDate br) d r.

(** The database: the two collections the lending resolvers touch. *)
Record DB : Type := mkDB {
  books : gmap N Book;
  borrowings : gmap N Borrowing;
}.

Definition emptyDB : DB := mkDB ∅ ∅.

(** The request context built from the bearer token: [userId] is [null]
    without a valid token. *)
Record Context : Type := mkContext { userId : option ObjectId }.

(** A plain JavaScript value, as found in the object given to [Model.create]
    and in a stored document. *)
Inductive Value : Type :=
| VString (s : string)
| VNumber (n : Z)
| VBoolean (b : bool)
| VDate (ms : Z)
| VObjectId (oid : ObjectId).

Inductive SchemaType : Type := TString | TNumber | TBoolean | TDate | TObjectId.

Record SchemaPath : Type := mkPath {
  path_type : SchemaType;
  path_required : bool;
  path_unique : bool;
  path_default : option Value;
}.

(** models/book.js, lines 3 to 9. *)
Definition bookSchema : list (string * SchemaPath) :=
  [ ("title", mkPath TString true false None);
    ("author", mkPath TString true false None);
    ("category", mkPath TString false false None);
    ("isbn", mkPath TString false true None);
    ("availableCopies", mkPath TNumber false false (Some (VNumber 1))) ].

(** ** Mongoose: building a document from the object given to [Model.create]

    Schemas are strict (the Mongoose default): a key of the object that is
    not a path of the schema is not stored.  A missing path takes its default
    when it has one; a required path that is missing or an empty string fails
    validation.  The resolvers only pass values that GraphQL has already
    coerced to the declared types, so a value of another type than the path's
    is reported as a validation failure instead of being cast. *)

Definition type_ok (t : SchemaType) (v : Value) : bool :=
  match t, v with
  | TString, VString _ | TNumber, VNumber _ | TBoolean, VBoolean _
  | TDate, VDate _ | TObjectId, VObjectId _ => true
  | _, _ => false
  end.

Definition is_empty_string (v : Value) : bool :=
  match v with VString "" => true | _ => false end.

Definition castPath (obj : gmap string Value) (p : string * SchemaPath)
  : Result (option Value) :=
  match obj !! p.1 with
  | Some v =>
      if negb (type_ok (path_type p.2) v) then Err (ValidationError p.1)
      else if path_required p.2 && is_empty_string v then Err (ValidationError p.1)
      else Ok (Some v)
  | None =>
      match path_default p.2 with
      | Some d => Ok (Some d)
      | None => if path_required p.2 then Err (ValidationError p.1) else Ok None
      end
  end.

Fixpoint applySchema (schema : list (string * SchemaPath)) (obj : gmap string Value)
  : Result (gmap string Value) :=
  match schema with
  | [] => Ok ∅
  | p :: rest =>
      match castPath obj p with
      | Err e => Err e
      | Ok v =>
          match applySchema rest obj with
          | Err e => Err e
          | Ok doc => Ok (match v with Some v => <[p.1 := v]> doc | None => doc end)
          end
      end
  end.

Definition getString (doc : gmap string Value) (k : string) : option string :=
  match doc !! k with Some (VString s) => Some s | _ => None end.

Definition getNumber (doc : gmap string Value) (k : string) : option Z :=
  match doc !! k with Some (VNumber n) => Some n | _ => None end.

(** The typed view of a stored Book document. *)
Definition Book_hydrate (doc : gmap string Value) : option Book :=
  match getString doc "title", getString doc "author", getNumber doc "availableCopies" with
  | Some t, Some a, Some n =>
      Some (mkBook t a (getString doc "category") (getString doc "isbn") n)
  | _, _, _ => None
  end.

Definition set_opt (k : string) (v : option Value) (doc : gmap string Value)
  : gmap string Value :=
  match v with Some v => <[k := v]> doc | None => doc end.

(** The stored document of a Book, path by path: what a GraphQL default
    field resolver reads ([parent[fieldName]]). *)
Definition Book_toObject (id : ObjectId) (b : Book) : gmap string Value :=
  <["_id" := VObjectId id]>
  (<["title" := VString (title b)]>
  (<["author" := VString (author b)]>
  (set_opt "category" (VString <$> category b)
  (set_opt "isbn" (VString <$> isbn b)
  (<["availableCopies" := VNumber (availableCopies b)]> ∅))))).

(** ** Database calls *)

Inductive Query : Type → Type :=
| Book_findById (id : ObjectId) : Query (option Book)
| Book_findOne_isbn (i : string) : Query (option Book)
| Book_find (filter : Book → bool) : Query (list (ObjectId * Book))
| Book_create (obj : gmap string Value) : Query (Result (ObjectId * Book))
| Book_save (id : ObjectId) (b : Book) : Query unit
| Borrowing_findById (id : ObjectId) : Query (option Borrowing)
| Borrowing_findOne (m b : ObjectId) (r : bool) : Query (option Borrowing)
| Borrowing_create (b m : ObjectId) (date : Z) (r : bool) : Query (ObjectId * Borrowing)
| Borrowing_save (id : ObjectId) (br : Borrowing) : Query unit.

Definition values {A : Type} (m : gmap N A) : list A := (map_to_list m).*2.

Definition has_isbn (i : option string) (b : Book) : bool := bool_decide (isbn b = i).

Definition borrowing_matches (m b : ObjectId) (r : bool) (br : Borrowing) : bool :=
  bool_decide (member br = m) && bool_decide (book br = b) && bool_decide (returned br = r).

(** [Book.create]: validation against the schema, then the insert under a
    new [_id], which the unique index on [isbn] (the one unique path of the
    schema) refuses for a value another document holds. *)
Definition exec_Book_create (obj : gmap string Value) (db : DB)
  : Result (ObjectId * Book) * DB :=
  match applySchema bookSchema obj with
  | Err e => (Err e, db)
  | Ok doc =>
      match Book_hydrate doc with
      | None => (Err (ValidationError "Book"), db)
      | Some b =>
          if existsb (has_isbn (isbn b)) (values (books db))
          then (Err (MongoServerError "E11000 duplicate key error"), db)
          else
            let id := fresh (dom (books db)) in
            (Ok (id, b), mkDB (<[id := b]> (books db)) (borrowings db))
      end
  end.

(** [doc.save()] writes the modified paths of the stored document: the
    resolvers only assign [availableCopies] on a Book, and [returned] and
    [returnDate] on a Borrowing.  No resolver deletes a document. *)
Definition exec_Book_save (id : ObjectId) (b : Book) (db : DB) : DB :=
  mkDB (alter (set_availableCopies (availableCopies b)) id (books db))
       (borrowings db).

Definition exec_Borrowing_save (id : ObjectId) (br : Borrowing) (db : DB) : DB :=
  mkDB (books db)
       (alter (set_returned (returned br) (returnDate br)) id (borrowings db)).

(** [Borrowing.create]: [returnDate] is left unset. *)
Definition exec_Borrowing_create (b m : ObjectId) (date : Z) (r : bool) (db : DB)
  : (ObjectId * Borrowing) * DB :=
  let id := fresh (dom (borrowings db)) in
  let br := mkBorrowing m b date None r in
  ((id, br), mkDB (books db) (<[id := br]> (borrowings db))).

Definition exec {X : Type} (q : Query X) (db : DB) : X * DB :=
  match q in Query X return X * DB with
  | Book_findById id => (books db !! id, db)
  | Book_findOne_isbn i => (List.find (has_isbn (Some i)) (values (books db)), db)
  | Book_find filter => (List.filter (λ doc, filter doc.2) (map_to_list (books db)), db)
  | Book_create obj => exec_Book_create obj db
  | Book_save id b => (tt, exec_Book_save id b db)
  | Borrowing_findById id => (borrowings db !! id, db)
  | Borrowing_findOne m b r =>
      (List.find (borrowing_matches m b r) (values (borrowings db)), db)
  | Borrowing_create b m date r => exec_Borrowing_create b m date r db
  | Borrowing_save id br => (tt, exec_Borrowing_save id br db)
  end.

(** ** Resolver programs *)

Inductive Prog (A : Type) : Type :=
| Return (a : A)
| Throw (e : Exn)
| Await {X : Type} (q : Query X) (k : X → Prog A).
Arguments Return {A} a.
Arguments Throw {A} e.
Arguments Await {A X} q k.

Notation "x <- 'await' q ;; k" := (Await q (fun x => k))
  (at level 100, q at next level, k at level 200, right associativity).
Notation "'await' q ;; k" := (Await q (fun _ => k))
  (at level 100, q at next level, k at level 200, right associativity).

(** [try { p } catch (error) { handler error }] *)
Fixpoint try_catch {A : Type} (p : Prog A) (handler : Exn → Prog A) : Prog A :=
  match p with
  | Return a => Return a
  | Throw e => handler e
  | Await q k => Await q (fun x => try_catch (k x) handler)
  end.

(** One request, run to completion. *)
Fixpoint run {A : Type} (p : Prog A) (db : DB) : Result A * DB :=
  match p with
  | Return a => (Ok a, db)
  | Throw e => (Err e, db)
  | Await q k => let '(x, db') := exec q db in run (k x) db'
  end.

(** Several requests in flight.  A request that is not settled awaits a
    database call; the event loop resumes one request at a time, which then
    gets the answer of its call and runs on to its next awaited call.
    [sched] lists which request is resumed at each turn. *)
Definition resume {A : Type} (i : nat) (reqs : list (Prog A)) (db : DB)
  : list (Prog A) * DB :=
  match reqs !! i with
  | Some (Await q k) => let '(x, db') := exec q db in (<[i := k x]> reqs, db')
  | _ => (reqs, db)
  end.

Fixpoint interleave {A : Type} (sched : list nat) (reqs : list (Prog A)) (db : DB)
  : list (Prog A) * DB :=
  match sched with
  | [] => (reqs, db)
  | i :: sched' => let '(reqs', db') := resume i reqs db in interleave sched' reqs' db'
  end.

(** The settled outcome of a request, if it has one yet, and the settled
    request that an outcome stands for. *)
Definition settled {A : Type} (p : Prog A) : option (Result A) :=
  match p with
  | Return a => Some (Ok a)
  | Throw e => Some (Err e)
  | Await _ _ => None
  end.

Definition settle {A : Type} (r : Result A) : Prog A :=
  match r with
  | Ok a => Return a
  | Err e => Throw e
  end.

(** ** The resolvers of the version with error codes *)

Record createBookInput : Type := mkInput {
  in_title : string;
  in_author : string;
  in_isbn : string;
  in_copies : Z;
  in_category : option string;
}.

(** The GraphQL input as a JavaScript object ([category] is absent when the
    request leaves it out). *)
Definition input_object (input : createBookInput) : gmap string Value :=
  set_opt "category" (VString <$> in_category input)
  (<["title" := VString (in_title input)]>
  (<["author" := VString (in_author input)]>
  (<["isbn" := VString (in_isbn input)]>
  (<["copies" := VNumber (in_copies input)]> ∅)))).

Definition ms_per_day : Z := 1000 * 60 * 60 * 24.

(** [Math.ceil(a / b)] on integers, for [b > 0]. *)
Definition Math_ceil_div (a b : Z) : Z := - ((- a) / b).

(** ** Regular expressions, for [$regex]

    MongoDB compiles the pattern with PCRE, in UTF mode.  The model covers
    ASCII text only: the patterns made of ordinary ASCII characters and of
    the wildcard [.], matched against strings of ASCII characters.
    [RegExp_compile] answers [None] on a pattern with any other
    metacharacter, with a character outside ASCII or with a NUL, about which
    the model says nothing; what the engine does with a string that holds a
    character outside ASCII (where a character takes several bytes and case
    folding follows Unicode) is not modelled either, and every statement
    about a search names the strings it is about as ASCII text.  With the
    option [i] an ASCII letter matches itself in either case.  A pattern
    matches a string when it matches somewhere in it. *)

Inductive Atom : Type :=
| Lit (c : ascii)
| AnyChar.

Definition is_meta (c : ascii) : bool :=
  existsb (Ascii.eqb c) (String.list_ascii_of_string "\^$.|?*+()[]{}").

Definition is_ascii (c : ascii) : bool := (nat_of_ascii c <? 128)%nat.

(** A character that stands for itself in a pattern. *)
Definition ordinary (c : ascii) : bool :=
  (0 <? nat_of_ascii c)%nat && is_ascii c && negb (is_meta c).

Fixpoint RegExp_compile (pattern : string) : option (list Atom) :=
  match pattern with
  | EmptyString => Some []
  | String c rest =>
      if Ascii.eqb c "." then cons AnyChar <$> RegExp_compile rest
      else if ordinary c then cons (Lit c) <$> RegExp_compile rest
      else None
  end.

(** Caseless comparison on ASCII: the letters A to Z are folded to a to z,
    and two characters match when they are equal after folding. *)
Definition toLower (c : ascii) : ascii :=
  let n := nat_of_ascii c in
  if (65 <=? n)%nat && (n <=? 90)%nat then ascii_of_nat (n + 32) else c.

(** The wildcard matches any character but a line feed. *)
Definition atom_matches (a : Atom) (c : ascii) : bool :=
  match a with
  | Lit l => Ascii.eqb (toLower l) (toLower c)
  | AnyChar => negb (Ascii.eqb c "010")
  end.

Fixpoint match_here (re : list Atom) (s : string) : bool :=
  match re, s with
  | [], _ => true
  | a :: re', String c s' => atom_matches a c && match_here re' s'
  | _ :: _, EmptyString => false
  end.

Fixpoint RegExp_test (re : list Atom) (s : string) : bool :=
  match_here re s
  || match s with
     | EmptyString => false
     | String _ s' => RegExp_test re s'
     end.

Module Part001.

(** [catch (error) { if (error instanceof AppError) throw error;
    throw new AppError(message, code); }] *)
Definition rethrow {A : Type} (message code : string) (error : Exn) : Prog A :=
  match error with
  | AppError _ _ => Throw error
  | _ => Throw (AppError message code)
  end.

Definition addBook (input : createBookInput) (context : Context) : Prog (ObjectId * Book) :=
  try_catch
    (match userId context with
     | None => Throw (AppError "Not authenticated" "UNAUTHENTICATED")
     | Some _ =>
       let title := in_title input in
       let author := in_author input in
       let isbn := in_isbn input in
       let copies := in_copies input in
       if bool_decide (title = "") || bool_decide (author = "")
          || bool_decide (isbn = "") || bool_decide (copies = 0)
       then Throw (AppError "Required fields missing" "INVALID_INPUT")
       else if bool_decide (copies < 1)
       then Throw (AppError "Number of copies must be positive" "INVALID_COPIES")
       else
         existingBook <- await (Book_findOne_isbn isbn) ;;
         match existingBook with
         | Some _ => Throw (AppError "Book with this ISBN already exists" "ISBN_EXISTS")
         | None =>
           created <- await (Book_create
                       (<["totalCopies" := VNumber copies]>
                        (<["availableCopies" := VNumber copies]> (input_object input)))) ;;
           match created with
           | Err e => Throw e
           | Ok book => Return book
           end
         end
     end)
    (rethrow "Failed to add book" "ADD_BOOK_ERROR").

Definition borrowBook (bookId : ID) (context : Context) (now : Z)
  : Prog (ObjectId * Borrowing) :=
  try_catch
    (match userId context with
     | None => Throw (AppError "Not authenticated" "UNAUTHENTICATED")
     | Some uid =>
       match bookId with
       | InvalidId _ => Throw (AppError "Invalid book ID" "INVALID_ID")
       | ValidId bid =>
         found <- await (Book_findById bid) ;;
         match found with
         | None => Throw (AppError "Book not found" "BOOK_NOT_FOUND")
         | Some book =>
           if bool_decide (availableCopies book ≤ 0)
           then Throw (AppError "No copies available" "NO_COPIES_AVAILABLE")
           else
             existingBorrowing <- await (Borrowing_findOne uid bid false) ;;
             match existingBorrowing with
             | Some _ =>
               Throw (AppError "Member has already borrowed this book" "ALREADY_BORROWED")
             | None =>
               newBorrowing <- await (Borrowing_create bid uid now false) ;;
               await (Book_save bid (set_availableCopies (availableCopies book - 1) book)) ;;
               Return newBorrowing
             end
         end
       end
     end)
    (rethrow "Failed to borrow book" "BORROW_BOOK_ERROR").

Definition returnBook (borrowingId : ID) (context : Context) (now : Z)
  : Prog (ObjectId * Borrowing) :=
  try_catch
    (match userId context with
     | None => Throw (AppError "Not authenticated" "UNAUTHENTICATED")
     | Some uid =>
       match borrowingId with
       | InvalidId _ => Throw (AppError "Invalid borrowing ID" "INVALID_ID")
       | ValidId brid =>
         found <- await (Borrowing_findById brid) ;;
         match found with
         | None => Throw (AppError "Borrowing record not found" "BORROWING_NOT_FOUND")
         | Some borrowing =>
           if negb (bool_decide (member borrowing = uid))
           then Throw (AppError "Not authorized to return this book" "UNAUTHORIZED")
           else if returned borrowing
           then Throw (AppError "Book already returned" "ALREADY_RETURNED")
           else
             let borrowing := set_returned true (Some now) borrowing in
             await (Borrowing_save brid borrowing) ;;
             let bid := book borrowing in
             found <- await (Book_findById bid) ;;
             match found with
             | None => Throw (TypeError "Cannot read properties of null")
             | Some book =>
               await (Book_save bid (set_availableCopies (availableCopies book + 1) book)) ;;
               Return (brid, borrowing)
             end
         end
       end
     end)
    (rethrow "Failed to return book" "RETURN_BOOK_ERROR").

(** [None]: the query is a pattern outside the modelled regular
    expressions. *)
Definition searchBooks (query : string) : option (Prog (list (ObjectId * Book))) :=
  match RegExp_compile query with
  | None => None
  | Some re =>
    Some (try_catch
            (books <- await (Book_find (λ b, RegExp_test re (title b)
                                             || RegExp_test re (author b))) ;;
             Return books)
            (λ _, Throw (AppError "Failed to search books" "SEARCH_BOOKS_ERROR")))
  end.

(** The field resolver [Borrowing.daysOverdue]; [now] is [new Date()].
    The quotient of the two integers is taken exactly, as the floating-point
    division does for durations far below 2^53 ms. *)
Definition daysOverdue (parent : Borrowing) (now : Z) : Z :=
  if negb (returned parent) then
    let diffTime := Z.abs (now - borrowDate parent) in
    let diffDays := Math_ceil_div diffTime ms_per_day in
    if bool_decide (diffDays > 14) then diffDays - 14 else 0
  else 0.

End Part001.

(** ** The resolvers of the earlier version

    No identifier validation (Mongoose fails to cast a malformed id), plain
    [Error]s, no [try]/[catch], and no ownership check in [returnBook]. *)

Module Part000.

Definition addBook (input : createBookInput) (context : Context) : Prog (ObjectId * Book) :=
  match userId context with
  | None => Throw (Error "Not authenticated")
  | Some _ =>
    existingBook <- await (Book_findOne_isbn (in_isbn input)) ;;
    match existingBook with
    | Some _ => Throw (Error "Book with this ISBN already exists")
    | None =>
      created <- await (Book_create (input_object input)) ;;
      match created with
      | Err e => Throw e
      | Ok book => Return book
      end
    end
  end.

(** The result is the new Borrowing read back with [book] populated (the
    Member collection is not part of the model). *)
Definition borrowBook (bookId : ID) (context : Context) (now : Z)
  : Prog (option (ObjectId * Borrowing * option Book)) :=
  match userId context with
  | None => Throw (Error "Not authenticated")
  | Some uid =>
    match bookId with
    | InvalidId _ => Throw (CastError "Cast to ObjectId failed")
    | ValidId bid =>
      found <- await (Book_findById bid) ;;
      match found with
      | None => Throw (Error "Book not found")
      | Some book' =>
        if bool_decide (availableCopies book' ≤ 0)
        then Throw (Error "No copies available")
        else
          existingBorrowing <- await (Borrowing_findOne uid bid false) ;;
          match existingBorrowing with
          | Some _ => Throw (Error "Member has already borrowed this book")
          | None =>
            borrowing <- await (Borrowing_findOne uid bid false) ;;
            match borrowing with
            | Some _ => Throw (Error "Member has already borrowed this book")
            | None =>
              newBorrowing <- await (Borrowing_create bid uid now false) ;;
              await (Book_save bid (set_availableCopies (availableCopies book' - 1) book')) ;;
              populatedBorrowing <- await (Borrowing_findById newBorrowing.1) ;;
              match populatedBorrowing with
              | None => Return None
              | Some br =>
                populated <- await (Book_findById (book br)) ;;
                Return (Some (newBorrowing.1, br, populated))
              end
            end
          end
      end
    end
  end.

Definition returnBook (borrowingId : ID) (context : Context) (now : Z)
  : Prog (ObjectId * Borrowing) :=
  match userId context with
  | None => Throw (Error "Not authenticated")
  | Some _ =>
    match borrowingId with
    | InvalidId _ => Throw (CastError "Cast to ObjectId failed")
    | ValidId brid =>
      found <- await (Borrowing_findById brid) ;;
      match found with
      | None => Throw (Error "Borrowing record not found")
      | Some borrowing =>
        if returned borrowing
        then Throw (Error "Book already returned")
        else
          let borrowing := set_returned true (Some now) borrowing in
          await (Borrowing_save brid borrowing) ;;
          let bid := book borrowing in
          found <- await (Book_findById bid) ;;
          match found with
          | None => Throw (TypeError "Cannot read properties of null")
          | Some book =>
            await (Book_save bid (set_availableCopies (availableCopies book + 1) book)) ;;
            Return (brid, borrowing)
          end
      end
    end
  end.

End Part000.

(** * Vocabulary of the properties *)

(** ** Catalog and loans *)

(** The copies of a book that are on the shelf ([0] for an unknown book). *)
Definition copies_of (bid : N) (db : DB) : Z :=
  match books db !! bid with Some b => availableCopies b | None => 0 end.

(** A member has an active loan of a book: a Borrowing of theirs for that
    book with [returned = false]. *)
Definition has_active_borrowing (uid bid : N) (db : DB) : Prop :=
  ∃ id br, borrowings db !! id = Some br
           ∧ member br = uid ∧ book br = bid ∧ returned br = false.

Definition is_active_loan_of (bid : N) (kv : N * Borrowing) : Prop :=
  book kv.2 = bid ∧ returned kv.2 = false.

Global Instance is_active_loan_of_dec bid kv : Decision (is_active_loan_of bid kv).
Proof. unfold is_active_loan_of. apply _. Defined.

(** The number of active loans of a book. *)
Definition active_loans (bid : N) (brs : gmap N Borrowing) : nat :=
  size (filter (is_active_loan_of bid) brs).

(** Some book of the catalog has this isbn. *)
Definition isbn_exists (i : string) (db : DB) : Prop :=
  ∃ id b, books db !! id = Some b ∧ isbn b = Some i.

(** ** addBook *)

(** The object [addBook] gives to [Book.create]:
    [{ ...input, availableCopies: copies, totalCopies: copies }]. *)
Definition addBook_object (input : createBookInput) : gmap string Value :=
  <["totalCopies" := VNumber (in_copies input)]>
  (<["availableCopies" := VNumber (in_copies input)]> (input_object input)).

(** The Book that [addBook] stores for an input. *)
Definition book_of_input (input : createBookInput) : Book :=
  mkBook (in_title input) (in_author input) (in_category input)
         (Some (in_isbn input)) (in_copies input).

(** A required field of the input is falsy: an empty string, or zero copies. *)
Definition input_missing (input : createBookInput) : Prop :=
  in_title input = "" ∨ in_author input = "" ∨ in_isbn input = ""
  ∨ in_copies input = 0.

(** GraphQL's default field resolver: the property of the parent object that
    is named like the field. *)
Definition defaultFieldResolver (source : gmap string Value) (fieldName : string)
  : option Value := source !! fieldName.

(** ** returnBook, called again and again *)

(** A series of [returnBook] calls on one borrowing id, each by some caller
    at some time, one after the other. *)
Definition return_calls (brid : N) (calls : list (Context * Z)) (db : DB) : DB :=
  fold_left (λ db c, (run (Part001.returnBook (ValidId brid) c.1 c.2) db).2) calls db.

Definition return_calls_000 (brid : N) (calls : list (Context * Z)) (db : DB) : DB :=
  fold_left (λ db c, (run (Part000.returnBook (ValidId brid) c.1 c.2) db).2) calls db.

(** What one [returnBook] call can do to the database, when it does
    something: mark an active loan returned and put at most one copy of its
    book back. *)
Definition marks_returned (brid : N) (db db' : DB) : Prop :=
  ∃ br : Borrowing,
    borrowings db !! brid = Some br ∧ returned br = false
    ∧ (∃ br', borrowings db' !! brid = Some br' ∧ returned br' = true)
    ∧ ∀ bid, copies_of bid db ≤ copies_of bid db' ≤ copies_of bid db + 1.

(** ** Histories of requests *)

Inductive Op : Type :=
| OpAddBook (input : createBookInput) (context : Context)
| OpBorrowBook (bookId : ID) (context : Context) (now : Z)
| OpReturnBook (borrowingId : ID) (context : Context) (now : Z).

Definition apply_op (op : Op) (db : DB) : DB :=
  match op with
  | OpAddBook input context => (run (Part001.addBook input context) db).2
  | OpBorrowBook bookId context now => (run (Part001.borrowBook bookId context now) db).2
  | OpReturnBook borrowingId context now =>
      (run (Part001.returnBook borrowingId context now) db).2
  end.

(** [totalCopies] is no path of [bookSchema], so the database does not hold
    it.  The ledger keeps, beside the database, the value that [addBook] gave
    as [totalCopies] when it created each book. *)
Definition record_totalCopies (op : Op) (db : DB) (totals : gmap N Z) : gmap N Z :=
  match op with
  | OpAddBook input context =>
      match (run (Part001.addBook input context) db).1 with
      | Ok created => <[created.1 := in_copies input]> totals
      | Err _ => totals
      end
  | _ => totals
  end.

(** The requests of a history, served one after the other. *)
Fixpoint replay (ops : list Op) (db : DB) (totals : gmap N Z) : DB * gmap N Z :=
  match ops with
  | [] => (db, totals)
  | op :: ops' => replay ops' (apply_op op db) (record_totalCopies op db totals)
  end.

(** What the histories preserve: every book has a recorded total, made of
    its copies on the shelf and its copies on loan, and every loan is of a
    book of the catalog. *)
Definition consistent (db : DB) (totals : gmap N Z) : Prop :=
  (∀ bid b, books db !! bid = Some b →
     0 ≤ availableCopies b
     ∧ totals !! bid = Some (availableCopies b + Z.of_nat (active_loans bid (borrowings db))))
  ∧ (∀ brid br, borrowings db !! brid = Some br → is_Some (books db !! book br)).

(** No member has two active loans of one book. *)
Definition one_active_loan_each (db : DB) : Prop :=
  ∀ id1 id2 br1 br2,
    borrowings db !! id1 = Some br1 → borrowings db !! id2 = Some br2 →
    member br1 = member br2 → book br1 = book br2 →
    returned br1 = false → returned br2 = false → id1 = id2.

(** ** daysOverdue *)

(** [days] is a duration in milliseconds counted in days, rounded up. *)
Definition is_ceil_days (duration days : Z) : Prop :=
  (days - 1) * ms_per_day < duration ≤ days * ms_per_day.

(** The loan period, in days. *)
Definition loan_days : Z := 14.

(** ** Substrings, whatever the case of the letters *)

(** A string of ASCII characters. *)
Definition ascii_text (s : string) : Prop :=
  Forall (λ c, is_ascii c = true) (String.list_ascii_of_string s).

(** A capital letter of ASCII, by its code. *)
Definition is_upper (c : ascii) : Prop := (65 ≤ nat_of_ascii c ≤ 90)%nat.

(** The same character, or the same letter in the other case: the code of
    the small letter is that of the capital plus 32. *)
Definition same_letter (c d : ascii) : Prop :=
  c = d
  ∨ (is_upper c ∧ nat_of_ascii d = (nat_of_ascii c + 32)%nat)
  ∨ (is_upper d ∧ nat_of_ascii c = (nat_of_ascii d + 32)%nat).

(** Somewhere in [s] there are as many consecutive characters as [query]
    has, each related by [R] to the character of [query] at its place. *)
Definition occurs_in (R : ascii → ascii → Prop) (query s : string) : Prop :=
  ∃ pre mid post,
    String.list_ascii_of_string s = (pre ++ mid ++ post)%list
    ∧ Forall2 R (String.list_ascii_of_string query) mid.

(** [s] contains [query] as a substring, case-insensitively. *)
Definition contains_ci (query s : string) : Prop := occurs_in same_letter query s.

(** What a character of a query stands for when the query is read as a
    pattern: a dot for any character but a line feed, another character for
    itself in either case. *)
Definition stands_for (p c : ascii) : Prop :=
  if Ascii.eqb p "." then c ≠ "010"%char else same_letter p c.

(** [s] contains a string that [query], read as a pattern, stands for. *)
Definition matches_ci (query s : string) : Prop := occurs_in stands_for query s.

(** An ASCII character, NUL apart, that is none of the metacharacters of
    regular expressions. *)
Definition plain_char (c : ascii) : Prop :=
  (0 < nat_of_ascii c < 128)%nat
  ∧ c ∉ String.list_ascii_of_string "\^$.|?*+()[]{}".

(** The query is made of such characters. *)
Definition plain_query (query : string) : Prop :=
  Forall plain_char (String.list_ascii_of_string query).

(** The same, the dot allowed. *)
Definition dotted_query (query : string) : Prop :=
  Forall (λ c, c = "."%char ∨ plain_char c) (String.list_ascii_of_string query).

(** The pattern that a query compiles to when each of its characters, the
    dot included, stands for itself; and when the dot is the wildcard. *)
Definition literal_pattern (query : string) : list Atom :=
  Lit <$> String.list_ascii_of_string query.

Definition atom_of (c : ascii) : Atom := if Ascii.eqb c "." then AnyChar else Lit c.

Definition dotted_pattern (query : string) : list Atom :=
  atom_of <$> String.list_ascii_of_string query.

(** ** Requests in flight on one book

    [borrowBook] awaits four database calls.  The definitions below name what
    is left of the resolver after each of them: after [Book.findById]
    answered [book] (with copies available), after [Borrowing.findOne] found
    no active loan, and after [Borrowing.create] answered [newBorrowing]. *)

Section BorrowStages.
Variables (uid bid : N) (now : Z).

Definition borrow_request : Prog (N * Borrowing) :=
  Part001.borrowBook (ValidId bid) (mkContext (Some uid)) now.

Definition saving_body (book : Book) (newBorrowing : N * Borrowing)
  : Prog (N * Borrowing) :=
  await (Book_save bid (set_availableCopies (availableCopies book - 1) book)) ;;
  Return newBorrowing.

Definition creating_body (book : Book) : Prog (N * Borrowing) :=
  newBorrowing <- await (Borrowing_create bid uid now false) ;;
  saving_body book newBorrowing.

Definition checking_body (book : Book) : Prog (N * Borrowing) :=
  existingBorrowing <- await (Borrowing_findOne uid bid false) ;;
  match existingBorrowing with
  | Some _ => Throw (AppError "Member has already borrowed this book" "ALREADY_BORROWED")
  | None => creating_body book
  end.

Definition in_borrowBook (body : Prog (N * Borrowing)) : Prog (N * Borrowing) :=
  try_catch body (Part001.rethrow "Failed to borrow book" "BORROW_BOOK_ERROR").

Definition borrow_saving (book : Book) (newBorrowing : N * Borrowing) :=
  in_borrowBook (saving_body book newBorrowing).
Definition borrow_creating (book : Book) := in_borrowBook (creating_body book).
Definition borrow_checking (book : Book) := in_borrowBook (checking_body book).

(** Where a request in flight can be, with respect to the current
    database [db] and the database [db0] in which the requests started: a
    request that holds a snapshot of the book read it when one copy was
    left; a request that has created its Borrowing finds it stored, under
    an id that is new since [db0]; a request that has settled with a
    Borrowing has written the book with no copy left. *)
Inductive borrow_stage (db0 db : DB) : Prog (N * Borrowing) → Prop :=
| stage_start : borrow_stage db0 db borrow_request
| stage_checking book :
    availableCopies book = 1 → borrow_stage db0 db (borrow_checking book)
| stage_creating book :
    availableCopies book = 1 → borrow_stage db0 db (borrow_creating book)
| stage_saving book id :
    availableCopies book = 1 →
    borrowings db !! id = Some (mkBorrowing uid bid now None false) →
    borrowings db0 !! id = None →
    borrow_stage db0 db (borrow_saving book (id, mkBorrowing uid bid now None false))
| stage_done id :
    copies_of bid db = 0 →
    borrowings db !! id = Some (mkBorrowing uid bid now None false) →
    borrowings db0 !! id = None →
    borrow_stage db0 db (Return (id, mkBorrowing uid bid now None false))
| stage_failed e : borrow_stage db0 db (Throw e).
End BorrowStages.

(** The requests of a list of callers (member and time of the request) for
    one book. *)
Definition borrow_requests (bid : N) (callers : list (N * Z))
  : list (Prog (N * Borrowing)) :=
  map (λ c, borrow_request c.1 bid c.2) callers.

(** The book has a copy count of 0 or 1, no loan has been deleted since the
    requests started, every request is at one of its stages, and when no copy
    is left some request has settled with its Borrowing. *)
Definition race_invariant (bid : N) (callers : list (N * Z)) (db0 : DB)
    (reqs : list (Prog (N * Borrowing))) (db : DB) : Prop :=
  (∃ b, books db !! bid = Some b ∧ (availableCopies b = 0 ∨ availableCopies b = 1))
  ∧ (∀ id, borrowings db !! id = None → borrowings db0 !! id = None)
  ∧ length reqs = length callers
  ∧ (∀ i c p, callers !! i = Some c → reqs !! i = Some p →
       borrow_stage c.1 bid c.2 db0 db p)
  ∧ (copies_of bid db = 0 →
     ∃ i c id, callers !! i = Some c
       ∧ reqs !! i = Some (Return (id, mkBorrowing c.1 bid c.2 None false))
       ∧ borrowings db !! id = Some (mkBorrowing c.1 bid c.2 None false)
       ∧ borrowings db0 !! id = None).

(** ** Sample data *)

Definition dune (copies : Z) : Book :=
  mkBook "Dune" "Frank Herbert" None (Some "111") copies.

(** One book (id 0) with [n] copies on the shelf and no loan. *)
Definition shelf_db (n : Z) : DB := mkDB {[ 0%N := dune n ]} ∅.

(** The catalog holds one book, with isbn "111". *)
Definition one_book_db : DB := shelf_db 2.

(** Member 1 holds an active loan (id 0) of book 0, whose last copy it is. *)
Definition active_loan_db : DB :=
  mkDB {[ 0%N := dune 0 ]} {[ 0%N := mkBorrowing 1 0 1000 None false ]}.

(** The same loan, returned at time 2000. *)
Definition returned_loan_db : DB :=
  mkDB {[ 0%N := dune 1 ]} {[ 0%N := mkBorrowing 1 0 1000 (Some 2000) true ]}.

Definition foundation (copies : Z) : createBookInput :=
  mkInput "Foundation" "Isaac Asimov" "222" copies (Some "FICTION").

(** A book is added, borrowed by member 1, returned, and borrowed again by
    member 2. *)
Definition sample_history : list Op :=
  [ OpAddBook (foundation 2) (mkContext (Some 1%N));
    OpBorrowBook (ValidId 0) (mkContext (Some 1%N)) 1000;
    OpReturnBook (ValidId 0) (mkContext (Some 1%N)) 2000;
    OpBorrowBook (ValidId 0) (mkContext (Some 2%N)) 3000 ].

(** ** Tactics *)

(** Runs a resolver up to its next test on the database or on its input. *)
Ltac run_resolver := cbn [run try_catch exec userId Part001.rethrow].

(** * The other resolvers of the version with error codes *)

From stdpp Require sorting.

(** The values of the GraphQL enum [Category]; a value is passed to a
    resolver as its name. *)
Inductive Category : Type := FICTION | NON_FICTION | SCIENCE | TECHNOLOGY | HISTORY.

Definition Category_name (c : Category) : string :=
  match c with
  | FICTION => "FICTION"
  | NON_FICTION => "NON_FICTION"
  | SCIENCE => "SCIENCE"
  | TECHNOLOGY => "TECHNOLOGY"
  | HISTORY => "HISTORY"
  end.

Definition has_category (name : string) (b : Book) : bool :=
  bool_decide (category b = Some name).

(** [bookQueries].  [filteredBooks] is modelled for a call that gives its
    argument. *)
Module BookQueries.

Definition availableBooks : Prog (list (ObjectId * Book)) :=
  try_catch
    (books <- await (Book_find (λ b, bool_decide (availableCopies b > 0))) ;;
     Return books)
    (λ _, Throw (AppError "Failed to fetch available books" "FETCH_AVAILABLE_BOOKS_ERROR")).

Definition filteredBooks (category : Category) : Prog (list (ObjectId * Book)) :=
  try_catch
    (books <- await (Book_find (has_category (Category_name category))) ;;
     Return books)
    (λ _, Throw (AppError "Failed to fetch filtered books" "FETCH_FILTERED_BOOKS_ERROR")).

Definition book (id : ID) : Prog (ObjectId * Book) :=
  try_catch
    (match id with
     | InvalidId _ => Throw (AppError "Invalid book ID" "INVALID_ID")
     | ValidId bid =>
       found <- await (Book_findById bid) ;;
       match found with
       | None => Throw (AppError "Book not found" "BOOK_NOT_FOUND")
       | Some book => Return (bid, book)
       end
     end)
    (Part001.rethrow "Failed to fetch book" "FETCH_BOOK_ERROR").

Definition books : Prog (list (ObjectId * Book)) :=
  try_catch
    (books <- await (Book_find (λ _, true)) ;;
     Return books)
    (λ _, Throw (AppError "Failed to fetch books" "FETCH_BOOKS_ERROR")).

End BookQueries.

(** The books a listing query answers on a database. *)
Definition listed (query : Prog (list (ObjectId * Book))) (db : DB)
  : list (ObjectId * Book) :=
  match (run query db).1 with
  | Ok found => found
  | Err _ => []
  end.

(** [Borrowing.book], the field resolver. *)
Module BorrowingFields.

Definition book (parent : Borrowing) : Prog (option Book) :=
  found <- await (Book_findById (book parent)) ;;
  Return found.

End BorrowingFields.

(** [formatError] of the server: what the client reads of the error that a
    resolver threw ([error.originalError]). *)
Record FormattedError : Type := mkFormattedError {
  fe_message : string;
  fe_code : string;
}.

Definition formatError (originalError : Exn) : FormattedError :=
  match originalError with
  | AppError message code => mkFormattedError message code
  | _ => mkFormattedError "Internal server error" "INTERNAL_SERVER_ERROR"
  end.

(** The failure, if any, is an [AppError], and the client reads its message
    and code. *)
Definition fails_with_AppError {A : Type} (r : Result A) : Prop :=
  match r with
  | Ok _ => True
  | Err e => ∃ message code,
      e = AppError message code ∧ formatError e = mkFormattedError message code
  end.

(** ** Errors along a history *)

Definition op_error (op : Op) (db : DB) : option Exn :=
  match op with
  | OpAddBook input context =>
      match (run (Part001.addBook input context) db).1 with
      | Err e => Some e | Ok _ => None
      end
  | OpBorrowBook bookId context now =>
      match (run (Part001.borrowBook bookId context now) db).1 with
      | Err e => Some e | Ok _ => None
      end
  | OpReturnBook borrowingId context now =>
      match (run (Part001.returnBook borrowingId context now) db).1 with
      | Err e => Some e | Ok _ => None
      end
  end.

(** The errors that the requests of a history are answered with, in order. *)
Fixpoint replay_errors (ops : list Op) (db : DB) : list Exn :=
  match ops with
  | [] => []
  | op :: ops' =>
      match op_error op db with
      | Some e => e :: replay_errors ops' (apply_op op db)
      | None => replay_errors ops' (apply_op op db)
      end
  end.

(** The codes of the errors that the resolvers throw themselves, as opposed
    to the codes that their [catch] blocks give to any other error
    ([ADD_BOOK_ERROR], [BORROW_BOOK_ERROR], [RETURN_BOOK_ERROR]). *)
Definition guard_codes : list string :=
  [ "UNAUTHENTICATED"; "INVALID_INPUT"; "INVALID_COPIES"; "ISBN_EXISTS";
    "INVALID_ID"; "BOOK_NOT_FOUND"; "NO_COPIES_AVAILABLE"; "ALREADY_BORROWED";
    "BORROWING_NOT_FOUND"; "UNAUTHORIZED"; "ALREADY_RETURNED" ].

Definition is_guard_error (e : Exn) : Prop :=
  ∃ message code, e = AppError message code ∧ code ∈ guard_codes.

(** ** The loans of a member

    [Member.borrowings] and [Member.activeBorrowings]:
    [Borrowing.find(filter).populate('book').sort({ borrowDate: -1 })].
    The database calls of these two resolvers only read, and the model has
    no failing read, so the [catch] blocks are left out and the resolvers
    are functions of the database. *)

(** [sort({ borrowDate: -1 })]: later loans first.  Among loans of the same
    date the order is the one the sort happens to give; no property below
    depends on it. *)
Definition later_first (x y : N * Borrowing) : Prop := borrowDate y.2 ≤ borrowDate x.2.

Global Instance later_first_dec x y : Decision (later_first x y).
Proof. unfold later_first. apply _. Defined.

Global Instance later_first_total : Total later_first.
Proof. intros x y. unfold later_first. lia. Qed.

Global Instance later_first_trans : Transitive later_first.
Proof. intros x y z. unfold later_first. lia. Qed.

Definition Borrowing_find_sorted (filter : Borrowing → bool) (db : DB)
  : list (N * Borrowing) :=
  sorting.merge_sort later_first (List.filter (λ doc, filter doc.2) (map_to_list (borrowings db))).

(** [populate('book')]: the reference is replaced by the book it names, or
    by [null]. *)
Definition populate_book (db : DB) (doc : N * Borrowing) : N * Borrowing * option Book :=
  (doc, books db !! book doc.2).

Module MemberFields.

(** [{ member: parent._id, returned: false }] *)
Definition activeBorrowings (parent_id : ObjectId) (db : DB)
  : list (N * Borrowing * option Book) :=
  populate_book db
  <$> Borrowing_find_sorted
        (λ br, bool_decide (member br = parent_id) && bool_decide (returned br = false)) db.

(** [{ member: parent._id }] *)
Definition borrowings (parent_id : ObjectId) (db : DB)
  : list (N * Borrowing * option Book) :=
  populate_book db <$> Borrowing_find_sorted (λ br, bool_decide (member br = parent_id)) db.

End MemberFields.

(** The order of a sorted answer: later loans first. *)
Definition later_first_populated (x y : N * Borrowing * option Book) : Prop :=
  borrowDate y.1.2 ≤ borrowDate x.1.2.

(** ** The request context

    The [context] function of the server, the same in both versions.
    [jwt_verify token] stands for [jwt.verify(token, secret).userId]: the
    member id that a token of this server carries, or nothing when
    [jwt.verify] throws. *)

(** [s.split(sep)] for a separator of one character. *)
Fixpoint String_split (sep : ascii) (s : string) : list string :=
  match s with
  | EmptyString => [EmptyString]
  | String c rest =>
      if Ascii.eqb c sep then EmptyString :: String_split sep rest
      else match String_split sep rest with
           | part :: parts => String c part :: parts
           | [] => [String c EmptyString]
           end
  end.

Definition context (jwt_verify : string → option ObjectId) (authorization : option string)
  : Context :=
  let token := default "" authorization in
  if negb (bool_decide (token = "")) && String.prefix "Bearer " token
  then
    match String_split " " token !! 1%nat with
    | Some credential => mkContext (jwt_verify credential)
    | None => mkContext None
    end
  else mkContext None.

(** The string has no space. *)
Definition no_space (s : string) : Prop :=
  Forall (λ c, c ≠ " "%char) (String.list_ascii_of_string s).

(** ** The membership number

    [registerMember]: [`MEM${Date.now().toString().slice(-6)}`].  A string is
    the list of its characters; [Date.now()] is a non-negative integer. *)

Definition digit (d : N) : ascii := ascii_of_N (48 + d).

(** [n.toString()], in base ten. *)
Fixpoint Number_toString_aux (fuel : nat) (n : N) : list ascii :=
  match fuel with
  | O => []
  | S fuel' =>
      if (n <? 10)%N then [digit n]
      else Number_toString_aux fuel' (n / 10) ++ [digit (n mod 10)]
  end.

Definition Number_toString (n : N) : list ascii :=
  Number_toString_aux (S (N.to_nat (N.log2 n))) n.

(** [s.slice(-k)]: the last [k] characters, or all of [s] when it has
    fewer. *)
Definition slice_last (k : nat) (s : list ascii) : list ascii :=
  drop (length s - k) s.

Definition membershipNumber (now : N) : string :=
  String.string_of_list_ascii
    (String.list_ascii_of_string "MEM" ++ slice_last 6 (Number_toString now)).

(** ** Schedules of two requests

    [returnBook] awaits four database calls, so a request that succeeds takes
    four turns: it reads the loan, saves the loan, reads the book and saves
    the book. *)

Definition reads_loan : nat := 0.
Definition saves_loan : nat := 1.
Definition reads_book : nat := 2.
Definition saves_book : nat := 3.

(** The place in the schedule of the turn number [k] (from 0) of request
    [i]. *)
Fixpoint turn_at (i k : nat) (sched : list nat) : nat :=
  match sched with
  | [] => O
  | j :: sched' =>
      if Nat.eqb j i then
        match k with
        | O => O
        | S k' => S (turn_at i k' sched')
        end
      else S (turn_at i k sched')
  end.

(** The turn [k1] of request [i1] comes before the turn [k2] of request
    [i2]. *)
Definition before (sched : list nat) (i1 k1 i2 k2 : nat) : Prop :=
  (turn_at i1 k1 sched < turn_at i2 k2 sched)%nat.

(** The lists of [n] numbers that are 0 or 1. *)
Fixpoint binary_lists (n : nat) : list (list nat) :=
  match n with
  | O => [[]]
  | S n' => (cons 0%nat <$> binary_lists n') ++ (cons 1%nat <$> binary_lists n')
  end.

(** The database with the loan [brid] and the book [bid] as given: the two
    documents that the [returnBook] requests for loan [brid] write. *)
Definition with_loan_and_book (db : DB) (brid : N) (loan : Borrowing) (bid : N) (bk : Book)
  : DB :=
  mkDB (<[bid := bk]> (books db)) (<[brid := loan]> (borrowings db)).

(** Shows that an [AppError] with a literal code is a guard error. *)
Ltac guard_code :=
  eexists _, _; split; [reflexivity|apply (bool_decide_unpack _); by vm_compute].

(** * Properties *)

(** ** Collections *)

Section Collections.
Context {A : Type}.
Implicit Types (m : gmap N A) (f : A → bool).

Lemma elem_of_values m x : x ∈ values m ↔ ∃ id, m !! id = Some x.
Proof.
  unfold values. rewrite list_elem_of_fmap. split.
  - intros [[id y] [-> Hin]]. exists id. by apply elem_of_map_to_list.
  - intros [id Hid]. exists (id, x). split; [done|]. by apply elem_of_map_to_list.
Qed.

Lemma find_values_None m f :
  List.find f (values m) = None ↔ ∀ id x, m !! id = Some x → f x = false.
Proof.
  split.
  - intros Hnone id x Hid.
    apply (List.find_none f _ Hnone x), list_elem_of_In, elem_of_values. eauto.
  - intros Hall. destruct (List.find f (values m)) as [x|] eqn:Hfind; [|done].
    apply List.find_some in Hfind as [Hin Hfx].
    apply list_elem_of_In, elem_of_values in Hin as [id Hid].
    rewrite (Hall id x Hid) in Hfx. done.
Qed.

Lemma find_values_Some m f x :
  List.find f (values m) = Some x → f x = true ∧ ∃ id, m !! id = Some x.
Proof.
  intros Hfind. apply List.find_some in Hfind as [Hin Hfx].
  split; [done|]. by apply elem_of_values, list_elem_of_In.
Qed.

Lemma fresh_id_None m : m !! fresh (dom m) = None.
Proof. apply not_elem_of_dom, is_fresh. Qed.

Lemma alter_Some m (g : A → A) id x :
  m !! id = Some x → alter g id m = <[id := g x]> m.
Proof.
  intros Hid. apply map_eq. intros j. rewrite lookup_alter, lookup_insert.
  repeat case_decide; subst; try congruence. by rewrite Hid.
Qed.
End Collections.

Lemma borrowing_matches_true m b r br :
  borrowing_matches m b r br = true ↔ member br = m ∧ book br = b ∧ returned br = r.
Proof.
  unfold borrowing_matches. rewrite !andb_true_iff, !bool_decide_eq_true. tauto.
Qed.

Lemma findOne_active_None uid bid db :
  List.find (borrowing_matches uid bid false) (values (borrowings db)) = None
  ↔ ¬ has_active_borrowing uid bid db.
Proof.
  rewrite find_values_None. unfold has_active_borrowing. split.
  - intros Hall (id & br & Hid & Hm). specialize (Hall id br Hid).
    apply borrowing_matches_true in Hm. congruence.
  - intros Hno id br Hid. destruct (borrowing_matches uid bid false br) eqn:Hm; [|done].
    exfalso. apply Hno. exists id, br. by apply borrowing_matches_true in Hm.
Qed.

(** ** borrowBook *)

(** The outcome of [borrowBook] for an authenticated member and a well-formed
    book id, check by check. *)
Lemma borrowBook_not_found db uid bid now :
  books db !! bid = None →
  run (Part001.borrowBook (ValidId bid) (mkContext (Some uid)) now) db
  = (Err (AppError "Book not found" "BOOK_NOT_FOUND"), db).
Proof. intros Hb. unfold Part001.borrowBook. run_resolver. by rewrite Hb. Qed.

Lemma borrowBook_no_copies db uid bid now b :
  books db !! bid = Some b → availableCopies b ≤ 0 →
  run (Part001.borrowBook (ValidId bid) (mkContext (Some uid)) now) db
  = (Err (AppError "No copies available" "NO_COPIES_AVAILABLE"), db).
Proof.
  intros Hb Hle. unfold Part001.borrowBook. run_resolver. rewrite Hb.
  by rewrite bool_decide_eq_true_2.
Qed.

Lemma borrowBook_already_borrowed db uid bid now b :
  books db !! bid = Some b → 0 < availableCopies b →
  has_active_borrowing uid bid db →
  run (Part001.borrowBook (ValidId bid) (mkContext (Some uid)) now) db
  = (Err (AppError "Member has already borrowed this book" "ALREADY_BORROWED"), db).
Proof.
  intros Hb Hpos Hact. unfold Part001.borrowBook. run_resolver. rewrite Hb.
  rewrite bool_decide_eq_false_2 by lia. run_resolver.
  destruct (List.find _ _) eqn:Hfind; [done|].
  by apply findOne_active_None in Hfind.
Qed.

Lemma borrowBook_success db uid bid now b :
  books db !! bid = Some b → 0 < availableCopies b →
  ¬ has_active_borrowing uid bid db →
  run (Part001.borrowBook (ValidId bid) (mkContext (Some uid)) now) db
  = (Ok (fresh (dom (borrowings db)), mkBorrowing uid bid now None false),
     mkDB (<[bid := set_availableCopies (availableCopies b - 1) b]> (books db))
          (<[fresh (dom (borrowings db)) := mkBorrowing uid bid now None false]>
             (borrowings db))).
Proof.
  intros Hb Hpos Hact. unfold Part001.borrowBook. run_resolver. rewrite Hb.
  rewrite bool_decide_eq_false_2 by lia. run_resolver.
  apply findOne_active_None in Hact. rewrite Hact. run_resolver.
  unfold exec_Borrowing_create, exec_Book_save. cbn [books borrowings].
  by rewrite (alter_Some _ _ _ b).
Qed.

Lemma borrowBook_Ok_inv db uid bid now loan db1 :
  run (Part001.borrowBook (ValidId bid) (mkContext (Some uid)) now) db = (Ok loan, db1) →
  (∃ b, books db !! bid = Some b ∧ 0 < availableCopies b)
  ∧ ¬ has_active_borrowing uid bid db.
Proof.
  intros Hrun. destruct (books db !! bid) as [b|] eqn:Hb;
    [|by rewrite (borrowBook_not_found _ _ _ _ Hb) in Hrun].
  destruct (decide (availableCopies b ≤ 0)) as [Hle|Hgt];
    [by rewrite (borrowBook_no_copies _ _ _ _ _ Hb Hle) in Hrun|].
  split; [exists b; split; [done|lia]|]. intros Hact.
  rewrite (borrowBook_already_borrowed _ _ _ _ b) in Hrun; [done..|lia|done].
Qed.

(** C1.  For an authenticated member [uid] and a book id [bid], [borrowBook]
    checks, in this order, that the book exists (else [BOOK_NOT_FOUND]), that
    its [availableCopies] is positive (else [NO_COPIES_AVAILABLE]) and that
    the member has no active Borrowing of it (else [ALREADY_BORROWED]); a
    failed check leaves the database as it was.  When the three checks pass it
    stores one new Borrowing of the member for the book with [returned = false]
    and [borrowDate = now], and the book is stored again with the same title,
    author, category and isbn and with [availableCopies] lower by exactly one;
    the other books and loans are as before.  So it succeeds exactly when the
    three conditions hold. *)
Theorem borrowBook_spec (db : DB) (uid bid : N) (now : Z) :
  let r := run (Part001.borrowBook (ValidId bid) (mkContext (Some uid)) now) db in
  (books db !! bid = None →
     r = (Err (AppError "Book not found" "BOOK_NOT_FOUND"), db))
  ∧ (∀ b, books db !! bid = Some b → availableCopies b ≤ 0 →
     r = (Err (AppError "No copies available" "NO_COPIES_AVAILABLE"), db))
  ∧ (∀ b, books db !! bid = Some b → 0 < availableCopies b →
     has_active_borrowing uid bid db →
     r = (Err (AppError "Member has already borrowed this book" "ALREADY_BORROWED"), db))
  ∧ (∀ b, books db !! bid = Some b → 0 < availableCopies b →
     ¬ has_active_borrowing uid bid db →
     ∃ id b', borrowings db !! id = None
       ∧ r = (Ok (id, mkBorrowing uid bid now None false),
              mkDB (<[bid := b']> (books db))
                   (<[id := mkBorrowing uid bid now None false]> (borrowings db)))
       ∧ b' = mkBook (title b) (author b) (category b) (isbn b) (availableCopies b - 1)
       ∧ copies_of bid r.2 = availableCopies b - 1)
  ∧ ((∃ br db', r = (Ok br, db'))
     ↔ (∃ b, books db !! bid = Some b ∧ 0 < availableCopies b)
       ∧ ¬ has_active_borrowing uid bid db).
Proof.
  cbv zeta. split; [|split; [|split; [|split; [|split]]]].
  - apply borrowBook_not_found.
  - intros b. apply borrowBook_no_copies.
  - intros b. apply borrowBook_already_borrowed.
  - intros b Hb Hpos Hact.
    exists (fresh (dom (borrowings db))),
           (mkBook (title b) (author b) (category b) (isbn b) (availableCopies b - 1)).
    rewrite (borrowBook_success _ _ _ _ b) by done.
    split; [apply fresh_id_None|]. split; [done|]. split; [done|].
    unfold copies_of. cbn [snd books]. by rewrite lookup_insert_eq.
  - intros (br & db' & Hrun). by apply borrowBook_Ok_inv in Hrun.
  - intros [(b & Hb & Hpos) Hact]. eexists _, _. by apply borrowBook_success.
Qed.

Lemma borrowBook_spec_witness :
  ∃ id,
    run (Part001.borrowBook (ValidId 0) (mkContext (Some 1%N)) 1000) (shelf_db 2)
    = (Ok (id, mkBorrowing 1 0 1000 None false),
       mkDB {[ 0%N := mkBook "Dune" "Frank Herbert" None (Some "111") 1 ]}
            {[ id := mkBorrowing 1 0 1000 None false ]})
    ∧ copies_of 0
        (run (Part001.borrowBook (ValidId 0) (mkContext (Some 1%N)) 1000) (shelf_db 2)).2
      = 1.
Proof.
  destruct (borrowBook_spec (shelf_db 2) 1 0 1000) as (_ & _ & _ & Hok & _).
  destruct (Hok (dune 2)) as (id & b' & _ & Hrun & Hb' & Hcopies).
  - reflexivity.
  - reflexivity.
  - intros (id & br & Hid & _). cbn in Hid. by rewrite lookup_empty in Hid.
  - exists id. split; [|exact Hcopies]. rewrite Hrun, Hb'. cbn [shelf_db books borrowings].
    by rewrite insert_singleton_eq, insert_empty.
Defined.

(** A malformed book id is refused before the catalog is read, and a request
    without a member identity before that. *)
Lemma borrowBook_invalid_id db uid s now :
  run (Part001.borrowBook (InvalidId s) (mkContext (Some uid)) now) db
  = (Err (AppError "Invalid book ID" "INVALID_ID"), db).
Proof. reflexivity. Qed.

Lemma borrowBook_unauthenticated db bookId now :
  run (Part001.borrowBook bookId (mkContext None) now) db
  = (Err (AppError "Not authenticated" "UNAUTHENTICATED"), db).
Proof. reflexivity. Qed.

(** ** returnBook *)

Section ReturnBook.
Variables (db : DB) (uid brid : N) (now : Z).

Lemma returnBook_not_found :
  borrowings db !! brid = None →
  run (Part001.returnBook (ValidId brid) (mkContext (Some uid)) now) db
  = (Err (AppError "Borrowing record not found" "BORROWING_NOT_FOUND"), db).
Proof. intros Hbr. unfold Part001.returnBook. run_resolver. by rewrite Hbr. Qed.

Lemma returnBook_unauthorized br :
  borrowings db !! brid = Some br → member br ≠ uid →
  run (Part001.returnBook (ValidId brid) (mkContext (Some uid)) now) db
  = (Err (AppError "Not authorized to return this book" "UNAUTHORIZED"), db).
Proof.
  intros Hbr Hne. unfold Part001.returnBook. run_resolver. rewrite Hbr.
  by rewrite bool_decide_eq_false_2.
Qed.

Lemma returnBook_already_returned br :
  borrowings db !! brid = Some br → member br = uid → returned br = true →
  run (Part001.returnBook (ValidId brid) (mkContext (Some uid)) now) db
  = (Err (AppError "Book already returned" "ALREADY_RETURNED"), db).
Proof.
  intros Hbr Hm Hret. unfold Part001.returnBook. run_resolver. rewrite Hbr.
  rewrite bool_decide_eq_true_2 by done. cbn [negb]. by rewrite Hret.
Qed.

Lemma returnBook_success br b :
  borrowings db !! brid = Some br → member br = uid → returned br = false →
  books db !! book br = Some b →
  run (Part001.returnBook (ValidId brid) (mkContext (Some uid)) now) db
  = (Ok (brid, set_returned true (Some now) br),
     mkDB (<[book br := set_availableCopies (availableCopies b + 1) b]> (books db))
          (<[brid := set_returned true (Some now) br]> (borrowings db))).
Proof.
  intros Hbr Hm Hret Hb. unfold Part001.returnBook. run_resolver. rewrite Hbr.
  rewrite bool_decide_eq_true_2 by done. cbn [negb]. rewrite Hret. run_resolver.
  unfold exec_Borrowing_save. cbn [books borrowings set_returned book].
  rewrite Hb. run_resolver. unfold exec_Book_save. cbn [books borrowings].
  rewrite (alter_Some _ _ _ b), (alter_Some _ _ _ br) by done.
  by destruct br.
Qed.

(** The book of the loan is gone from the catalog: the loan is already
    marked returned when the resolver fails on the missing book. *)
Lemma returnBook_book_missing br :
  borrowings db !! brid = Some br → member br = uid → returned br = false →
  books db !! book br = None →
  run (Part001.returnBook (ValidId brid) (mkContext (Some uid)) now) db
  = (Err (AppError "Failed to return book" "RETURN_BOOK_ERROR"),
     mkDB (books db) (<[brid := set_returned true (Some now) br]> (borrowings db))).
Proof.
  intros Hbr Hm Hret Hb. unfold Part001.returnBook. run_resolver. rewrite Hbr.
  rewrite bool_decide_eq_true_2 by done. cbn [negb]. rewrite Hret. run_resolver.
  unfold exec_Borrowing_save. cbn [books borrowings set_returned book].
  rewrite Hb. run_resolver. rewrite (alter_Some _ _ _ br) by done.
  by destruct br.
Qed.
End ReturnBook.

(** The earlier resolver: the same steps without the ownership check. *)
Section ReturnBook000.
Variables (db : DB) (uid brid : N) (now : Z).

Lemma returnBook000_already_returned br :
  borrowings db !! brid = Some br → returned br = true →
  run (Part000.returnBook (ValidId brid) (mkContext (Some uid)) now) db
  = (Err (Error "Book already returned"), db).
Proof.
  intros Hbr Hret. unfold Part000.returnBook. run_resolver. rewrite Hbr.
  by rewrite Hret.
Qed.

Lemma returnBook000_success br b :
  borrowings db !! brid = Some br → returned br = false →
  books db !! book br = Some b →
  run (Part000.returnBook (ValidId brid) (mkContext (Some uid)) now) db
  = (Ok (brid, set_returned true (Some now) br),
     mkDB (<[book br := set_availableCopies (availableCopies b + 1) b]> (books db))
          (<[brid := set_returned true (Some now) br]> (borrowings db))).
Proof.
  intros Hbr Hret Hb. unfold Part000.returnBook. run_resolver. rewrite Hbr, Hret.
  run_resolver. unfold exec_Borrowing_save. cbn [books borrowings set_returned book].
  rewrite Hb. run_resolver. unfold exec_Book_save. cbn [books borrowings].
  rewrite (alter_Some _ _ _ b), (alter_Some _ _ _ br) by done.
  by destruct br.
Qed.

Lemma returnBook000_book_missing br :
  borrowings db !! brid = Some br → returned br = false →
  books db !! book br = None →
  run (Part000.returnBook (ValidId brid) (mkContext (Some uid)) now) db
  = (Err (TypeError "Cannot read properties of null"),
     mkDB (books db) (<[brid := set_returned true (Some now) br]> (borrowings db))).
Proof.
  intros Hbr Hret Hb. unfold Part000.returnBook. run_resolver. rewrite Hbr, Hret.
  run_resolver. unfold exec_Borrowing_save. cbn [books borrowings set_returned book].
  rewrite Hb. run_resolver. rewrite (alter_Some _ _ _ br) by done.
  by destruct br.
Qed.
End ReturnBook000.

Lemma copies_of_insert_incr db bid0 b brs bid :
  books db !! bid0 = Some b →
  copies_of bid db
  ≤ copies_of bid (mkDB (<[bid0 := set_availableCopies (availableCopies b + 1) b]> (books db)) brs)
  ≤ copies_of bid db + 1.
Proof.
  intros Hb. unfold copies_of. cbn [books]. rewrite lookup_insert.
  case_decide; subst; [rewrite Hb; cbn; lia|].
  destruct (books db !! bid); lia.
Qed.

Lemma returnBook_step brid c now db :
  let db' := (run (Part001.returnBook (ValidId brid) c now) db).2 in
  db' = db ∨ marks_returned brid db db'.
Proof.
  cbv zeta. destruct c as [[uid|]]; [|by left].
  destruct (borrowings db !! brid) as [br|] eqn:Hbr;
    [|left; by rewrite returnBook_not_found].
  destruct (decide (member br = uid)) as [Hm|Hm];
    [|left; by rewrite (returnBook_unauthorized _ _ _ _ br)].
  destruct (returned br) eqn:Hret;
    [left; by rewrite (returnBook_already_returned _ _ _ _ br)|].
  right. exists br. split; [done|]. split; [done|].
  destruct (books db !! book br) as [b|] eqn:Hb.
  - rewrite (returnBook_success _ _ _ _ br b) by done. cbn [snd]. split.
    + eexists. cbn [borrowings]. by rewrite lookup_insert_eq.
    + intros bid. by apply copies_of_insert_incr.
  - rewrite (returnBook_book_missing _ _ _ _ br) by done. cbn [snd]. split.
    + eexists. cbn [borrowings]. by rewrite lookup_insert_eq.
    + intros bid. unfold copies_of. cbn [books]. lia.
Qed.

Lemma returnBook000_step brid c now db :
  let db' := (run (Part000.returnBook (ValidId brid) c now) db).2 in
  db' = db ∨ marks_returned brid db db'.
Proof.
  cbv zeta. destruct c as [[uid|]]; [|by left].
  destruct (borrowings db !! brid) as [br|] eqn:Hbr;
    [|left; unfold Part000.returnBook; run_resolver; by rewrite Hbr].
  destruct (returned br) eqn:Hret;
    [left; by rewrite (returnBook000_already_returned _ _ _ _ br)|].
  right. exists br. split; [done|]. split; [done|].
  destruct (books db !! book br) as [b|] eqn:Hb.
  - rewrite (returnBook000_success _ _ _ _ br b) by done. cbn [snd]. split.
    + eexists. cbn [borrowings]. by rewrite lookup_insert_eq.
    + intros bid. by apply copies_of_insert_incr.
  - rewrite (returnBook000_book_missing _ _ _ _ br) by done. cbn [snd]. split.
    + eexists. cbn [borrowings]. by rewrite lookup_insert_eq.
    + intros bid. unfold copies_of. cbn [books]. lia.
Qed.

(** Once a loan is marked returned, no [returnBook] call changes anything. *)
Lemma returnBook_returned_noop db brid br c now :
  borrowings db !! brid = Some br → returned br = true →
  (run (Part001.returnBook (ValidId brid) c now) db).2 = db
  ∧ (run (Part000.returnBook (ValidId brid) c now) db).2 = db.
Proof.
  intros Hbr Hret. destruct c as [[uid|]]; [|done]. split.
  - destruct (decide (member br = uid)) as [Hm|Hm].
    + by rewrite (returnBook_already_returned _ _ _ _ br).
    + by rewrite (returnBook_unauthorized _ _ _ _ br).
  - by rewrite (returnBook000_already_returned _ _ _ _ br).
Qed.

Lemma return_calls_returned db brid br calls :
  borrowings db !! brid = Some br → returned br = true →
  return_calls brid calls db = db ∧ return_calls_000 brid calls db = db.
Proof.
  intros Hbr Hret. unfold return_calls, return_calls_000.
  induction calls as [|c calls [IH1 IH2]]; [done|]. cbn [fold_left].
  destruct (returnBook_returned_noop db brid br c.1 c.2 Hbr Hret) as [-> ->].
  done.
Qed.

Lemma return_calls_at_most_once brid calls db bid :
  copies_of bid db ≤ copies_of bid (return_calls brid calls db) ≤ copies_of bid db + 1.
Proof.
  revert db. induction calls as [|c calls IH]; intros db; [cbn; lia|].
  pose proof (returnBook_step brid c.1 c.2 db) as Hstep. cbv zeta in Hstep.
  change (return_calls brid (c :: calls) db)
    with (return_calls brid calls (run (Part001.returnBook (ValidId brid) c.1 c.2) db).2).
  destruct Hstep as [->|(br & _ & _ & (br' & Hbr' & Hret') & Hcopies)].
  - apply IH.
  - destruct (return_calls_returned _ brid br' calls Hbr' Hret') as [-> _].
    apply Hcopies.
Qed.

Lemma return_calls_000_at_most_once brid calls db bid :
  copies_of bid db ≤ copies_of bid (return_calls_000 brid calls db) ≤ copies_of bid db + 1.
Proof.
  revert db. induction calls as [|c calls IH]; intros db; [cbn; lia|].
  pose proof (returnBook000_step brid c.1 c.2 db) as Hstep. cbv zeta in Hstep.
  change (return_calls_000 brid (c :: calls) db)
    with (return_calls_000 brid calls (run (Part000.returnBook (ValidId brid) c.1 c.2) db).2).
  destruct Hstep as [->|(br & _ & _ & (br' & Hbr' & Hret') & Hcopies)].
  - apply IH.
  - destruct (return_calls_returned _ brid br' calls Hbr' Hret') as [_ ->].
    apply Hcopies.
Qed.

(** C4, as the code has it.  [returnBook] on a loan that is already returned
    never succeeds and changes nothing: the owner gets [ALREADY_RETURNED];
    another member is refused earlier, by the ownership check, with
    [UNAUTHORIZED] (the earlier resolver has no such check and answers
    "Book already returned" to every member).  Whatever the callers and
    however many the calls, [returnBook] calls on one loan put at most one
    copy of a book back. *)
Theorem returnBook_returned_spec (db : DB) (brid : N) :
  (∀ br caller now,
     borrowings db !! brid = Some br → returned br = true →
     run (Part001.returnBook (ValidId brid) (mkContext (Some caller)) now) db
     = (Err (if decide (member br = caller)
             then AppError "Book already returned" "ALREADY_RETURNED"
             else AppError "Not authorized to return this book" "UNAUTHORIZED"), db)
     ∧ run (Part000.returnBook (ValidId brid) (mkContext (Some caller)) now) db
       = (Err (Error "Book already returned"), db))
  ∧ (∀ br calls,
     borrowings db !! brid = Some br → returned br = true →
     return_calls brid calls db = db ∧ return_calls_000 brid calls db = db)
  ∧ (∀ calls bid,
     copies_of bid db ≤ copies_of bid (return_calls brid calls db) ≤ copies_of bid db + 1
     ∧ copies_of bid db ≤ copies_of bid (return_calls_000 brid calls db)
       ≤ copies_of bid db + 1).
Proof.
  split; [|split].
  - intros br caller now Hbr Hret. split.
    + case_decide.
      * by apply (returnBook_already_returned _ _ _ _ br).
      * by apply (returnBook_unauthorized _ _ _ _ br).
    + by apply (returnBook000_already_returned _ _ _ _ br).
  - intros br calls. apply return_calls_returned.
  - intros calls bid. split.
    + apply return_calls_at_most_once.
    + apply return_calls_000_at_most_once.
Qed.

(** C4, as stated, fails on the resolver with the ownership check: member 2
    asks to return the already returned loan of member 1 and is answered
    [UNAUTHORIZED], not [ALREADY_RETURNED]. *)
Lemma returnBook_returned_other_member :
  borrowings returned_loan_db !! 0%N = Some (mkBorrowing 1 0 1000 (Some 2000) true)
  ∧ run (Part001.returnBook (ValidId 0) (mkContext (Some 2%N)) 3000) returned_loan_db
    = (Err (AppError "Not authorized to return this book" "UNAUTHORIZED"), returned_loan_db)
  ∧ (run (Part001.returnBook (ValidId 0) (mkContext (Some 2%N)) 3000) returned_loan_db).1
    ≠ Err (AppError "Book already returned" "ALREADY_RETURNED").
Proof. split; [|split]; [done|done|]. vm_compute. discriminate. Qed.

(** C3 on the earlier resolver: member 2 returns the active loan of member 1.
    The call succeeds, marks the loan returned and puts the copy back. *)
Theorem returnBook000_other_member :
  borrowings active_loan_db !! 0%N = Some (mkBorrowing 1 0 1000 None false)
  ∧ run (Part000.returnBook (ValidId 0) (mkContext (Some 2%N)) 2000) active_loan_db
    = (Ok (0%N, mkBorrowing 1 0 1000 (Some 2000) true), returned_loan_db).
Proof. split; [done|]. vm_compute. reflexivity. Qed.

(** The earlier resolver lets any authenticated member return any active
    loan. *)
Lemma returnBook000_any_member db uid brid now br b :
  borrowings db !! brid = Some br → returned br = false →
  books db !! book br = Some b →
  ∃ db', run (Part000.returnBook (ValidId brid) (mkContext (Some uid)) now) db
         = (Ok (brid, set_returned true (Some now) br), db').
Proof. intros. eexists. by apply returnBook000_success. Qed.

(** X1.  The resolver with the ownership check: a member who does not own the loan
    is answered [UNAUTHORIZED] and nothing changes, whether the loan is active
    or returned; a successful return was asked by the owner of an active
    loan. *)
Theorem returnBook_owner_only (db : DB) (uid brid : N) (now : Z) :
  (∀ br, borrowings db !! brid = Some br → member br ≠ uid →
     run (Part001.returnBook (ValidId brid) (mkContext (Some uid)) now) db
     = (Err (AppError "Not authorized to return this book" "UNAUTHORIZED"), db))
  ∧ (∀ r db',
     run (Part001.returnBook (ValidId brid) (mkContext (Some uid)) now) db = (Ok r, db') →
     ∃ br, borrowings db !! brid = Some br ∧ member br = uid ∧ returned br = false).
Proof.
  split; [intros br; apply returnBook_unauthorized|].
  intros r db' Hrun.
  destruct (borrowings db !! brid) as [br|] eqn:Hbr;
    [|by rewrite returnBook_not_found in Hrun].
  destruct (decide (member br = uid)) as [Hm|Hm];
    [|by rewrite (returnBook_unauthorized _ _ _ _ br) in Hrun].
  destruct (returned br) eqn:Hret;
    [by rewrite (returnBook_already_returned _ _ _ _ br) in Hrun|].
  by exists br.
Qed.

(** ** Borrow, then return *)

Lemma set_availableCopies_undo b n :
  n = availableCopies b → set_availableCopies n (set_availableCopies (n - 1) b) = b.
Proof. intros ->. by destruct b. Qed.

(** C5.  A member borrows a book and then returns that loan.  The return
    succeeds; afterwards the catalog is what it was before the borrow (so the
    book's [availableCopies] is back to its earlier value), and the loans are
    the earlier ones plus exactly one new record, the loan of this member for
    this book, with [returned = true] and [returnDate] set to the time of the
    return. *)
Theorem borrow_then_return (db db1 : DB) (uid bid : N) (now1 now2 : Z)
    (loan : N * Borrowing) :
  run (Part001.borrowBook (ValidId bid) (mkContext (Some uid)) now1) db = (Ok loan, db1) →
  ∃ db2,
    run (Part001.returnBook (ValidId loan.1) (mkContext (Some uid)) now2) db1
    = (Ok (loan.1, mkBorrowing uid bid now1 (Some now2) true), db2)
    ∧ books db2 = books db
    ∧ copies_of bid db2 = copies_of bid db
    ∧ borrowings db !! loan.1 = None
    ∧ borrowings db2
      = <[loan.1 := mkBorrowing uid bid now1 (Some now2) true]> (borrowings db)
    ∧ size (borrowings db2) = S (size (borrowings db)).
Proof.
  intros Hborrow.
  destruct (borrowBook_Ok_inv _ _ _ _ _ _ Hborrow) as [(b & Hb & Hpos) Hact].
  rewrite (borrowBook_success _ _ _ _ b Hb Hpos Hact) in Hborrow.
  injection Hborrow as <- <-. cbn [fst].
  set (id := fresh (dom (borrowings db))).
  assert (Hid : borrowings db !! id = None) by apply fresh_id_None.
  eexists. split; [|split; [|split; [|split; [|split]]]].
  - apply (returnBook_success _ _ _ _ (mkBorrowing uid bid now1 None false)
             (set_availableCopies (availableCopies b - 1) b)); cbn [books borrowings member returned book];
      by rewrite ?lookup_insert_eq.
  - cbn [books availableCopies set_availableCopies book].
    rewrite insert_insert_eq.
    replace (availableCopies b - 1 + 1) with (availableCopies b) by lia.
    apply insert_id. rewrite Hb. by destruct b.
  - unfold copies_of. cbn [books availableCopies set_availableCopies book].
    rewrite lookup_insert_eq, Hb. cbn. lia.
  - done.
  - cbn [borrowings set_returned member book borrowDate]. by rewrite insert_insert_eq.
  - cbn [borrowings]. rewrite insert_insert_eq. by apply map_size_insert_None.
Qed.

Lemma borrow_then_return_witness :
  ∃ db2,
    run (Part001.returnBook (ValidId 0) (mkContext (Some 7%N)) 2000)
        (mkDB {[ 0%N := dune 0 ]} {[ 0%N := mkBorrowing 7 0 1000 None false ]})
    = (Ok (0%N, mkBorrowing 7 0 1000 (Some 2000) true), db2)
    ∧ books db2 = books (shelf_db 1)
    ∧ copies_of 0 db2 = copies_of 0 (shelf_db 1)
    ∧ borrowings (shelf_db 1) !! 0%N = None
    ∧ borrowings db2
      = <[0%N := mkBorrowing 7 0 1000 (Some 2000) true]> (borrowings (shelf_db 1))
    ∧ size (borrowings db2) = S (size (borrowings (shelf_db 1))).
Proof.
  apply (borrow_then_return (shelf_db 1)
           (mkDB {[ 0%N := dune 0 ]} {[ 0%N := mkBorrowing 7 0 1000 None false ]})
           7%N 0%N 1000 2000 (0%N, mkBorrowing 7 0 1000 None false)).
  vm_compute. reflexivity.
Defined.

(** ** addBook *)

(** Strict schemas: a document has no key outside the paths of its schema. *)
Lemma applySchema_strict schema obj doc k :
  applySchema schema obj = Ok doc → k ∉ schema.*1 → doc !! k = None.
Proof.
  revert doc. induction schema as [|p rest IH]; intros doc Happly Hk.
  - cbn in Happly. by injection Happly as <-.
  - cbn in Happly, Hk. apply not_elem_of_cons in Hk as [Hne Hk].
    destruct (castPath obj p) as [v|]; [|done].
    destruct (applySchema rest obj) as [doc'|]; [|done].
    injection Happly as <-.
    destruct v; [rewrite lookup_insert_ne by done|]; by apply IH.
Qed.

Lemma addBook_document input :
  in_title input ≠ "" → in_author input ≠ "" →
  ∃ doc, applySchema bookSchema (addBook_object input) = Ok doc
         ∧ Book_hydrate doc = Some (book_of_input input)
         ∧ ∀ id, Book_toObject id (book_of_input input) = <["_id" := VObjectId id]> doc.
Proof.
  destruct input as [t a i c cat]. cbn [in_title in_author]. intros Ht Ha.
  destruct t as [|t0 t]; [done|]. destruct a as [|a0 a]; [done|].
  destruct cat as [cat|]; eexists;
    (split; [vm_compute; reflexivity|split; [|intros id]; vm_compute; reflexivity]).
Qed.

Lemma existsb_find {A : Type} (f : A → bool) (l : list A) :
  List.find f l = None → existsb f l = false.
Proof.
  induction l as [|x l IH]; [done|]. cbn. destruct (f x); [done|]. apply IH.
Qed.

Lemma findOne_isbn_None i db :
  List.find (has_isbn (Some i)) (values (books db)) = None ↔ ¬ isbn_exists i db.
Proof.
  rewrite find_values_None. unfold isbn_exists, has_isbn. split.
  - intros Hall (id & b & Hid & Hi). specialize (Hall id b Hid).
    by rewrite bool_decide_eq_true_2 in Hall.
  - intros Hno id b Hid. apply bool_decide_eq_false_2. intros Hi. apply Hno. eauto.
Qed.

Section AddBook.
Variables (db : DB) (uid : N) (input : createBookInput).

Lemma addBook_missing :
  input_missing input →
  run (Part001.addBook input (mkContext (Some uid))) db
  = (Err (AppError "Required fields missing" "INVALID_INPUT"), db).
Proof.
  intros Hmiss. unfold Part001.addBook. run_resolver. cbv zeta.
  destruct (_ || _) eqn:Hor; [done|].
  rewrite !orb_false_iff, !bool_decide_eq_false in Hor.
  unfold input_missing in Hmiss. tauto.
Qed.

Lemma addBook_checks_pass :
  ¬ input_missing input →
  bool_decide (in_title input = "") || bool_decide (in_author input = "")
  || bool_decide (in_isbn input = "") || bool_decide (in_copies input = 0) = false.
Proof.
  unfold input_missing. intros Hmiss.
  rewrite !orb_false_iff, !bool_decide_eq_false. tauto.
Qed.

Lemma addBook_negative_copies :
  ¬ input_missing input → in_copies input < 1 →
  run (Part001.addBook input (mkContext (Some uid))) db
  = (Err (AppError "Number of copies must be positive" "INVALID_COPIES"), db).
Proof.
  intros Hmiss Hneg. unfold Part001.addBook. run_resolver. cbv zeta.
  rewrite (addBook_checks_pass Hmiss). by rewrite bool_decide_eq_true_2.
Qed.

Lemma addBook_isbn_exists :
  ¬ input_missing input → 1 ≤ in_copies input → isbn_exists (in_isbn input) db →
  run (Part001.addBook input (mkContext (Some uid))) db
  = (Err (AppError "Book with this ISBN already exists" "ISBN_EXISTS"), db).
Proof.
  intros Hmiss Hpos Hdup. unfold Part001.addBook. run_resolver. cbv zeta.
  rewrite (addBook_checks_pass Hmiss). rewrite bool_decide_eq_false_2 by lia.
  run_resolver. destruct (List.find _ _) eqn:Hfind; [done|].
  by apply findOne_isbn_None in Hfind.
Qed.

Lemma addBook_success :
  ¬ input_missing input → 1 ≤ in_copies input → ¬ isbn_exists (in_isbn input) db →
  run (Part001.addBook input (mkContext (Some uid))) db
  = (Ok (fresh (dom (books db)), book_of_input input),
     mkDB (<[fresh (dom (books db)) := book_of_input input]> (books db)) (borrowings db)).
Proof.
  intros Hmiss Hpos Hdup. unfold Part001.addBook. run_resolver. cbv zeta.
  rewrite (addBook_checks_pass Hmiss). rewrite bool_decide_eq_false_2 by lia.
  run_resolver. apply findOne_isbn_None in Hdup. rewrite Hdup. run_resolver.
  fold (addBook_object input). unfold exec_Book_create.
  destruct (addBook_document input) as (doc & -> & -> & _).
  { unfold input_missing in Hmiss. tauto. }
  { unfold input_missing in Hmiss. tauto. }
  cbn [isbn book_of_input]. by rewrite (existsb_find _ _ Hdup).
Qed.
End AddBook.

Lemma addBook_unauthenticated db input :
  run (Part001.addBook input (mkContext None)) db
  = (Err (AppError "Not authenticated" "UNAUTHENTICATED"), db).
Proof. reflexivity. Qed.

(** [addBook] refuses the request and changes nothing, or stores the book. *)
Lemma addBook_cases input context db :
  (∃ e, run (Part001.addBook input context) db = (Err e, db))
  ∨ (1 ≤ in_copies input
     ∧ books db !! fresh (dom (books db)) = None
     ∧ run (Part001.addBook input context) db
       = (Ok (fresh (dom (books db)), book_of_input input),
          mkDB (<[fresh (dom (books db)) := book_of_input input]> (books db))
               (borrowings db))).
Proof.
  destruct context as [[uid|]]; [|left; by eexists].
  destruct (decide (input_missing input)) as [Hmiss|Hmiss];
    [left; eexists; by apply addBook_missing|].
  destruct (decide (in_copies input < 1)) as [Hneg|Hpos];
    [left; eexists; by apply addBook_negative_copies|].
  destruct (List.find (has_isbn (Some (in_isbn input))) (values (books db))) eqn:Hfind.
  - left. eexists. apply addBook_isbn_exists; [done|lia|].
    apply find_values_Some in Hfind as [Hi [id Hid]].
    exists id, b. split; [done|]. by apply bool_decide_eq_true in Hi.
  - right. split; [lia|]. split; [apply fresh_id_None|].
    apply addBook_success; [done|lia|]. by apply findOne_isbn_None.
Qed.

(** C8, as the code has it.  For an authenticated caller, [addBook] answers
    [INVALID_INPUT] when the title, the author or the isbn is the empty string
    or the number of copies is 0; else [INVALID_COPIES] when the number of
    copies is below 1; else [ISBN_EXISTS] when a book of the catalog has the
    isbn; a refused call leaves the database as it was.  Otherwise it stores
    one new book, with the fields of the input and [availableCopies] equal to
    the number of copies. *)
Theorem addBook_spec (db : DB) (uid : N) (input : createBookInput) :
  let r := run (Part001.addBook input (mkContext (Some uid))) db in
  (input_missing input →
     r = (Err (AppError "Required fields missing" "INVALID_INPUT"), db))
  ∧ (¬ input_missing input → in_copies input < 1 →
     r = (Err (AppError "Number of copies must be positive" "INVALID_COPIES"), db))
  ∧ (¬ input_missing input → 1 ≤ in_copies input → isbn_exists (in_isbn input) db →
     r = (Err (AppError "Book with this ISBN already exists" "ISBN_EXISTS"), db))
  ∧ (¬ input_missing input → 1 ≤ in_copies input → ¬ isbn_exists (in_isbn input) db →
     ∃ id b, books db !! id = None
       ∧ r = (Ok (id, b), mkDB (<[id := b]> (books db)) (borrowings db))
       ∧ b = book_of_input input
       ∧ availableCopies b = in_copies input).
Proof.
  cbv zeta. split; [|split; [|split]].
  - apply addBook_missing.
  - apply addBook_negative_copies.
  - apply addBook_isbn_exists.
  - intros Hmiss Hpos Hdup. eexists _, _. split; [apply fresh_id_None|].
    split; [by apply addBook_success|done].
Qed.

(** C8, as stated, fails.  The catalog has a book with isbn "111".  A request
    for that isbn with -1 copies is answered [INVALID_COPIES], which is neither
    the duplicate-isbn nor the invalid-input answer; a request for that isbn
    with an empty title is answered [INVALID_INPUT], not the duplicate-isbn
    answer. *)
Lemma addBook_duplicate_isbn_invalid_input :
  isbn_exists "111" one_book_db
  ∧ run (Part001.addBook (mkInput "Dune" "Frank Herbert" "111" (-1) None)
                         (mkContext (Some 1%N))) one_book_db
    = (Err (AppError "Number of copies must be positive" "INVALID_COPIES"), one_book_db)
  ∧ run (Part001.addBook (mkInput "" "Frank Herbert" "111" 1 None)
                         (mkContext (Some 1%N))) one_book_db
    = (Err (AppError "Required fields missing" "INVALID_INPUT"), one_book_db).
Proof.
  split; [|split].
  - exists 0%N, (dune 2). done.
  - vm_compute. reflexivity.
  - vm_compute. reflexivity.
Qed.

(** A title made of a space is not empty: the book is stored. *)
Example addBook_whitespace_title :
  run (Part001.addBook (mkInput " " "Frank Herbert" "333" 1 None) (mkContext (Some 1%N)))
      emptyDB
  = (Ok (0%N, mkBook " " "Frank Herbert" None (Some "333") 1),
     mkDB {[ 0%N := mkBook " " "Frank Herbert" None (Some "333") 1 ]} ∅).
Proof. vm_compute. reflexivity. Qed.

(** ** The stored Book has no [totalCopies] *)

Lemma applySchema_ignores schema obj k v :
  k ∉ schema.*1 → applySchema schema (<[k := v]> obj) = applySchema schema obj.
Proof.
  induction schema as [|p rest IH]; intros Hk; [done|].
  cbn in Hk. apply not_elem_of_cons in Hk as [Hne Hk].
  cbn. unfold castPath. rewrite lookup_insert_ne by done. by rewrite IH.
Qed.

Lemma totalCopies_not_a_path : "totalCopies" ∉ bookSchema.*1.
Proof. apply (bool_decide_unpack _). by vm_compute. Qed.

Lemma Book_toObject_totalCopies id b :
  defaultFieldResolver (Book_toObject id b) "totalCopies" = None.
Proof. destruct b as [t a [c|] [i|] n]; vm_compute; reflexivity. Qed.

(** C10.  After a successful [addBook], the stored Book document has no
    [totalCopies]: the object given to [Book.create] carries the value, the
    document built from it under [bookSchema] does not, and the stored Book
    is that document.  The value given as [totalCopies] has no effect on what
    [Book.create] does, and a read of the field [totalCopies] of the book
    finds nothing. *)
Theorem addBook_drops_totalCopies (db db' : DB) (context : Context)
    (input : createBookInput) (id : N) (b : Book) :
  run (Part001.addBook input context) db = (Ok (id, b), db') →
  books db' !! id = Some b
  ∧ addBook_object input !! "totalCopies" = Some (VNumber (in_copies input))
  ∧ (∃ doc, applySchema bookSchema (addBook_object input) = Ok doc
            ∧ doc !! "totalCopies" = None
            ∧ Book_toObject id b = <["_id" := VObjectId id]> doc)
  ∧ defaultFieldResolver (Book_toObject id b) "totalCopies" = None
  ∧ ∀ v, exec (Book_create (<["totalCopies" := v]> (addBook_object input))) db
         = exec (Book_create (addBook_object input)) db.
Proof.
  intros Hrun.
  destruct (addBook_cases input context db) as [[e He]|(Hpos & Hfresh & Hok)];
    [congruence|].
  assert (Hmiss : ¬ input_missing input).
  { intros Hmiss. destruct context as [[uid|]]; [|done].
    by rewrite addBook_missing in Hok. }
  rewrite Hok in Hrun. injection Hrun as <- <- <-.
  split; [cbn [books]; by rewrite lookup_insert_eq|].
  split; [unfold addBook_object; by rewrite lookup_insert_eq|].
  split.
  - destruct (addBook_document input) as (doc & Hdoc & _ & Hobj).
    { unfold input_missing in Hmiss. tauto. }
    { unfold input_missing in Hmiss. tauto. }
    exists doc. split; [done|]. split; [|apply Hobj].
    apply (applySchema_strict _ _ _ _ Hdoc), totalCopies_not_a_path.
  - split; [apply Book_toObject_totalCopies|].
    intros v. cbn [exec]. unfold exec_Book_create, addBook_object.
    rewrite insert_insert_eq.
    by rewrite !(applySchema_ignores _ _ "totalCopies") by apply totalCopies_not_a_path.
Qed.

Lemma addBook_drops_totalCopies_witness :
  let db' := mkDB {[ 0%N := book_of_input (foundation 2) ]} ∅ in
  books db' !! 0%N = Some (book_of_input (foundation 2))
  ∧ addBook_object (foundation 2) !! "totalCopies" = Some (VNumber 2)
  ∧ (∃ doc, applySchema bookSchema (addBook_object (foundation 2)) = Ok doc
            ∧ doc !! "totalCopies" = None
            ∧ Book_toObject 0 (book_of_input (foundation 2)) = <["_id" := VObjectId 0]> doc)
  ∧ defaultFieldResolver (Book_toObject 0 (book_of_input (foundation 2))) "totalCopies" = None
  ∧ ∀ v, exec (Book_create (<["totalCopies" := v]> (addBook_object (foundation 2)))) emptyDB
         = exec (Book_create (addBook_object (foundation 2))) emptyDB.
Proof.
  apply (addBook_drops_totalCopies emptyDB (mkDB {[ 0%N := book_of_input (foundation 2) ]} ∅)
           (mkContext (Some 1%N)) (foundation 2) 0%N (book_of_input (foundation 2))).
  vm_compute. reflexivity.
Defined.

(** ** Copies on the shelf and copies on loan *)

Lemma active_loans_insert_new brs id br bid :
  brs !! id = None →
  active_loans bid (<[id := br]> brs)
  = if decide (is_active_loan_of bid (id, br))
    then S (active_loans bid brs) else active_loans bid brs.
Proof.
  intros Hid. unfold active_loans. rewrite map_filter_insert. case_decide.
  - apply map_size_insert_None, map_lookup_filter_None. left. done.
  - by rewrite delete_id.
Qed.

Lemma active_loans_return brs id br d bid :
  brs !! id = Some br → returned br = false →
  active_loans bid (<[id := set_returned true d br]> brs)
  = if decide (book br = bid) then pred (active_loans bid brs) else active_loans bid brs.
Proof.
  intros Hid Hret. unfold active_loans.
  rewrite map_filter_insert_False by (unfold is_active_loan_of; cbn; intros [_ ?]; done).
  rewrite map_filter_delete. case_decide as Hbook.
  - apply map_size_delete_Some. exists br. by apply map_lookup_filter_Some.
  - apply map_size_delete_None, map_lookup_filter_None. right.
    intros br' Hbr'. unfold is_active_loan_of. cbn. intros [? _]. congruence.
Qed.

Lemma active_loans_pos brs id br :
  brs !! id = Some br → returned br = false → (0 < active_loans (book br) brs)%nat.
Proof.
  intros Hid Hret. unfold active_loans.
  assert (Hin : filter (is_active_loan_of (book br)) brs !! id = Some br)
    by by apply map_lookup_filter_Some.
  pose proof (map_size_ne_0_lookup_2 _ id (mk_is_Some _ _ Hin)). lia.
Qed.

(** What each resolver can do to the database. *)

Lemma borrowBook_cases bookId context now db :
  (∃ e, run (Part001.borrowBook bookId context now) db = (Err e, db))
  ∨ (∃ uid bid b,
       books db !! bid = Some b ∧ 0 < availableCopies b
       ∧ ¬ has_active_borrowing uid bid db
       ∧ borrowings db !! fresh (dom (borrowings db)) = None
       ∧ run (Part001.borrowBook bookId context now) db
         = (Ok (fresh (dom (borrowings db)), mkBorrowing uid bid now None false),
            mkDB (<[bid := set_availableCopies (availableCopies b - 1) b]> (books db))
                 (<[fresh (dom (borrowings db)) := mkBorrowing uid bid now None false]>
                    (borrowings db)))).
Proof.
  destruct context as [[uid|]]; [|left; by eexists].
  destruct bookId as [bid|s]; [|left; by eexists].
  destruct (books db !! bid) as [b|] eqn:Hb;
    [|left; eexists; by apply borrowBook_not_found].
  destruct (decide (availableCopies b ≤ 0)) as [Hle|Hpos];
    [left; eexists; by apply (borrowBook_no_copies _ _ _ _ b)|].
  destruct (List.find (borrowing_matches uid bid false) (values (borrowings db)))
    as [existing|] eqn:Hfind.
  - left. eexists. apply (borrowBook_already_borrowed _ _ _ _ b); [done|lia|].
    apply find_values_Some in Hfind as [Hm [id Hid]].
    apply borrowing_matches_true in Hm. by exists id, existing.
  - apply findOne_active_None in Hfind.
    right. exists uid, bid, b. split; [done|]. split; [lia|]. split; [done|].
    split; [apply fresh_id_None|].
    by apply borrowBook_success; [|lia|].
Qed.

Lemma returnBook_cases borrowingId context now db :
  (∃ e, run (Part001.returnBook borrowingId context now) db = (Err e, db))
  ∨ (∃ brid br,
       borrowings db !! brid = Some br ∧ returned br = false
       ∧ ((∃ b, books db !! book br = Some b
              ∧ run (Part001.returnBook borrowingId context now) db
                = (Ok (brid, set_returned true (Some now) br),
                   mkDB (<[book br := set_availableCopies (availableCopies b + 1) b]>
                           (books db))
                        (<[brid := set_returned true (Some now) br]> (borrowings db))))
          ∨ (books db !! book br = None
             ∧ (run (Part001.returnBook borrowingId context now) db).2
               = mkDB (books db)
                      (<[brid := set_returned true (Some now) br]> (borrowings db))))).
Proof.
  destruct context as [[uid|]]; [|left; by eexists].
  destruct borrowingId as [brid|s]; [|left; by eexists].
  destruct (borrowings db !! brid) as [br|] eqn:Hbr;
    [|left; eexists; by apply returnBook_not_found].
  destruct (decide (member br = uid)) as [Hm|Hm];
    [|left; eexists; by apply (returnBook_unauthorized _ _ _ _ br)].
  destruct (returned br) eqn:Hret;
    [left; eexists; by apply (returnBook_already_returned _ _ _ _ br)|].
  right. exists brid, br. split; [done|]. split; [done|].
  destruct (books db !! book br) as [b|] eqn:Hb; [left|right].
  - exists b. split; [done|]. by apply returnBook_success.
  - split; [done|]. by rewrite (returnBook_book_missing _ _ _ _ br).
Qed.

Lemma active_loans_none brs bid :
  (∀ brid br, brs !! brid = Some br → book br ≠ bid) → active_loans bid brs = 0%nat.
Proof.
  intros Hnone. unfold active_loans. apply map_size_empty_iff, map_empty.
  intros brid. apply map_lookup_filter_None. right.
  intros br Hbr [Hbook _]. by apply (Hnone brid br).
Qed.

Lemma consistent_empty : consistent emptyDB ∅.
Proof. split; intros ? ? H; cbn in H; by rewrite lookup_empty in H. Qed.

Lemma consistent_addBook input context db totals :
  consistent db totals →
  consistent (apply_op (OpAddBook input context) db)
             (record_totalCopies (OpAddBook input context) db totals).
Proof.
  intros [Hbooks Hrefs]. cbn [apply_op record_totalCopies].
  destruct (addBook_cases input context db) as [[e ->]|(Hpos & Hfresh & ->)]; [done|].
  cbn [fst snd]. set (id := fresh (dom (books db))) in *. split.
  - intros bid b. cbn [books borrowings]. rewrite !lookup_insert.
    case_decide as Hid.
    + subst bid. intros [= <-]. cbn [availableCopies book_of_input]. split; [lia|].
      rewrite active_loans_none; [f_equal; lia|].
      intros brid br Hbr Hbook. destruct (Hrefs brid br Hbr) as [b Hb]. congruence.
    + apply Hbooks.
  - intros brid br Hbr. cbn [books borrowings] in *. rewrite lookup_insert.
    case_decide; [done|]. by apply (Hrefs brid).
Qed.

Lemma consistent_borrowBook bookId context now db totals :
  consistent db totals →
  consistent (apply_op (OpBorrowBook bookId context now) db) totals.
Proof.
  intros [Hbooks Hrefs]. cbn [apply_op].
  destruct (borrowBook_cases bookId context now db)
    as [[e ->]|(uid & bid & b & Hb & Hpos & _ & Hfresh & ->)]; [done|].
  cbn [snd]. set (id := fresh (dom (borrowings db))) in *.
  destruct (Hbooks bid b Hb) as [_ Htotal]. split.
  - intros bid' b'. cbn [books borrowings]. rewrite lookup_insert.
    rewrite active_loans_insert_new by done. unfold is_active_loan_of. cbn [snd book returned].
    case_decide as Hbid.
    + subst bid'. intros [= <-]. cbn [availableCopies set_availableCopies].
      split; [lia|]. rewrite decide_True by done. rewrite Htotal. f_equal. lia.
    + intros Hb'. rewrite decide_False by (intros [? _]; congruence). by apply Hbooks.
  - intros brid br. cbn [books borrowings]. rewrite !lookup_insert.
    case_decide.
    + intros [= <-]. cbn [book]. rewrite decide_True by done. done.
    + intros Hbr. case_decide; [done|]. by apply (Hrefs brid).
Qed.

Lemma consistent_returnBook borrowingId context now db totals :
  consistent db totals →
  consistent (apply_op (OpReturnBook borrowingId context now) db) totals.
Proof.
  intros [Hbooks Hrefs]. cbn [apply_op].
  destruct (returnBook_cases borrowingId context now db)
    as [[e ->]|(brid & br & Hbr & Hret & [(b & Hb & ->)|[Hmissing _]])]; [done| |].
  - cbn [snd]. destruct (Hbooks _ b Hb) as [Hnonneg Htotal].
    pose proof (active_loans_pos _ _ _ Hbr Hret) as Hloans. split.
    + intros bid' b'. cbn [books borrowings]. rewrite lookup_insert.
      rewrite (active_loans_return _ _ br) by done.
      case_decide as Hbid.
      * subst bid'. intros [= <-]. cbn [availableCopies set_availableCopies].
        split; [lia|]. rewrite Htotal. f_equal. lia.
      * intros Hb'. by apply Hbooks.
    + intros brid' br'. cbn [books borrowings]. rewrite !lookup_insert.
      case_decide.
      * intros [= <-]. cbn [book set_returned]. rewrite decide_True by done. done.
      * intros Hbr'. case_decide; [done|]. by apply (Hrefs brid').
  - destruct (Hrefs brid br Hbr) as [b Hb]. congruence.
Qed.

Lemma consistent_replay ops db totals :
  consistent db totals → consistent (replay ops db totals).1 (replay ops db totals).2.
Proof.
  revert db totals. induction ops as [|op ops IH]; intros db totals Hdb; [done|].
  cbn [replay]. apply IH. destruct op.
  - by apply consistent_addBook.
  - by apply consistent_borrowBook.
  - by apply consistent_returnBook.
Qed.

(** C2.  Serve any history of [addBook], [borrowBook] and [returnBook]
    requests, one after the other, from an empty database.  Every book of the
    catalog then has a recorded [totalCopies] (the value its [addBook] gave),
    and [0 ≤ availableCopies ≤ totalCopies].  Since the history is any
    history, this holds after each of its requests. *)
Theorem availableCopies_bounds (ops : list Op) (bid : N) (b : Book) :
  books (replay ops emptyDB ∅).1 !! bid = Some b →
  ∃ totalCopies, (replay ops emptyDB ∅).2 !! bid = Some totalCopies
                 ∧ 0 ≤ availableCopies b ≤ totalCopies.
Proof.
  intros Hb.
  destruct (consistent_replay ops emptyDB ∅ consistent_empty) as [Hbooks _].
  destruct (Hbooks bid b Hb) as [Hnonneg Htotal].
  eexists. split; [exact Htotal|]. lia.
Qed.

Lemma availableCopies_bounds_witness :
  ∃ totalCopies, (replay sample_history emptyDB ∅).2 !! 0%N = Some totalCopies
                 ∧ 0 ≤ availableCopies (book_of_input (foundation 1)) ≤ totalCopies.
Proof.
  apply (availableCopies_bounds sample_history 0%N (book_of_input (foundation 1))).
  vm_compute. reflexivity.
Defined.

(** ** One active loan per member and book *)

Lemma one_active_loan_borrowBook bookId context now db :
  one_active_loan_each db →
  one_active_loan_each (apply_op (OpBorrowBook bookId context now) db).
Proof.
  intros Hone. cbn [apply_op].
  destruct (borrowBook_cases bookId context now db)
    as [[e ->]|(uid & bid & b & _ & _ & Hact & Hfresh & ->)]; [done|].
  cbn [snd]. set (id := fresh (dom (borrowings db))) in *.
  intros id1 id2 br1 br2. cbn [borrowings].
  destruct (decide (id1 = id)) as [->|Hne1], (decide (id2 = id)) as [->|Hne2]; [done| | |].
  - rewrite lookup_insert_eq, lookup_insert_ne by done.
    intros [= <-] Hbr2 Hm Hb _ Hret. exfalso. apply Hact.
    exists id2, br2. cbn in Hm, Hb. done.
  - rewrite lookup_insert_ne, lookup_insert_eq by done.
    intros Hbr1 [= <-] Hm Hb Hret _. exfalso. apply Hact.
    exists id1, br1. cbn in Hm, Hb. done.
  - rewrite !lookup_insert_ne by done. apply Hone.
Qed.

Lemma one_active_loan_returnBook borrowingId context now db :
  one_active_loan_each db →
  one_active_loan_each (apply_op (OpReturnBook borrowingId context now) db).
Proof.
  intros Hone. cbn [apply_op].
  assert (Hmark : ∀ (brid : N) br d (brs : gmap N Borrowing),
            (∀ id1 id2 br1 br2, brs !! id1 = Some br1 → brs !! id2 = Some br2 →
               member br1 = member br2 → book br1 = book br2 →
               returned br1 = false → returned br2 = false → id1 = id2) →
            ∀ id1 id2 br1 br2,
              <[brid := set_returned true d br]> brs !! id1 = Some br1 →
              <[brid := set_returned true d br]> brs !! id2 = Some br2 →
              member br1 = member br2 → book br1 = book br2 →
              returned br1 = false → returned br2 = false → id1 = id2).
  { intros brid br d brs Hbrs id1 id2 br1 br2.
    destruct (decide (id1 = brid)) as [->|Hne1].
    { rewrite lookup_insert_eq. by intros [= <-]. }
    destruct (decide (id2 = brid)) as [->|Hne2].
    { rewrite (lookup_insert_eq _ brid). by intros _ [= <-]. }
    rewrite !lookup_insert_ne by done. apply Hbrs. }
  destruct (returnBook_cases borrowingId context now db)
    as [[e ->]|(brid & br & _ & _ & [(b & _ & ->)|[_ ->]])]; [done| |];
    unfold one_active_loan_each; cbn [snd borrowings]; by apply Hmark.
Qed.

Lemma one_active_loan_replay ops db totals :
  one_active_loan_each db → one_active_loan_each (replay ops db totals).1.
Proof.
  revert db totals. induction ops as [|op ops IH]; intros db totals Hone; [done|].
  cbn [replay]. apply IH. destruct op as [input context| |].
  - cbn [apply_op].
    by destruct (addBook_cases input context db) as [[e ->]|(_ & _ & ->)].
  - by apply one_active_loan_borrowBook.
  - by apply one_active_loan_returnBook.
Qed.

(** X2.  After any history of requests served one after the other from an
    empty database, a member has at most one active loan of a book. *)
Theorem at_most_one_active_loan (ops : list Op) :
  one_active_loan_each (replay ops emptyDB ∅).1.
Proof.
  apply one_active_loan_replay. intros id1 id2 br1 br2 Hbr1.
  cbn in Hbr1. by rewrite lookup_empty in Hbr1.
Qed.

(** ** daysOverdue *)

Lemma Math_ceil_div_spec a b :
  0 < b → (Math_ceil_div a b - 1) * b < a ≤ Math_ceil_div a b * b.
Proof.
  intros Hb. unfold Math_ceil_div.
  pose proof (Z.div_mod (- a) b ltac:(lia)) as Hdiv.
  pose proof (Z.mod_pos_bound (- a) b Hb) as Hmod. nia.
Qed.

Lemma is_ceil_days_unique duration d1 d2 :
  is_ceil_days duration d1 → is_ceil_days duration d2 → d1 = d2.
Proof. unfold is_ceil_days, ms_per_day. lia. Qed.

Lemma daysOverdue_active parent now :
  returned parent = false →
  ∃ days, is_ceil_days (Z.abs (now - borrowDate parent)) days
          ∧ Part001.daysOverdue parent now = Z.max 0 (days - loan_days).
Proof.
  intros Hret. unfold Part001.daysOverdue. rewrite Hret. cbn [negb]. cbv zeta.
  exists (Math_ceil_div (Z.abs (now - borrowDate parent)) ms_per_day). split.
  - apply Math_ceil_div_spec. done.
  - unfold loan_days. case_bool_decide; lia.
Qed.

(** C7, as the code has it.  [daysOverdue] is 0 for a returned loan.  For an
    active loan it is [max(0, days - 14)], where [days] is the distance
    between [now] and [borrowDate], in days, rounded up; when [borrowDate] is
    not after [now] that distance is [now - borrowDate].  An active loan
    borrowed exactly 20 days ago is 6 days overdue. *)
Theorem daysOverdue_spec (parent : Borrowing) (now : Z) :
  (returned parent = true → Part001.daysOverdue parent now = 0)
  ∧ (returned parent = false →
     ∃ days, is_ceil_days (Z.abs (now - borrowDate parent)) days
             ∧ Part001.daysOverdue parent now = Z.max 0 (days - loan_days))
  ∧ (returned parent = false → borrowDate parent ≤ now →
     ∃ days, is_ceil_days (now - borrowDate parent) days
             ∧ Part001.daysOverdue parent now = Z.max 0 (days - loan_days))
  ∧ (returned parent = false → now - borrowDate parent = 20 * ms_per_day →
     Part001.daysOverdue parent now = 6).
Proof.
  split; [|split; [|split]].
  - intros Hret. unfold Part001.daysOverdue. by rewrite Hret.
  - apply daysOverdue_active.
  - intros Hret Hle. destruct (daysOverdue_active parent now Hret) as (days & Hdays & Heq).
    exists days. by rewrite Z.abs_eq in Hdays by lia.
  - intros Hret H20. unfold Part001.daysOverdue. rewrite Hret, H20. by vm_compute.
Qed.

(** C7, as stated, fails for a loan dated after [now]: with [borrowDate] 20
    days ahead, [now - borrowDate] is -20 days, the stated formula gives
    [max(0, -20 - 14) = 0], and the resolver answers 6. *)
Lemma daysOverdue_future_borrowDate :
  is_ceil_days (0 - 20 * ms_per_day) (-20)
  ∧ Z.max 0 (-20 - loan_days) = 0
  ∧ Part001.daysOverdue (mkBorrowing 1 0 (20 * ms_per_day) None false) 0 = 6.
Proof. by vm_compute. Qed.

(** ** searchBooks *)

Lemma nat_of_ascii_inj c d : nat_of_ascii c = nat_of_ascii d → c = d.
Proof.
  intros Heq. by rewrite <- (ascii_nat_embedding c), <- (ascii_nat_embedding d), Heq.
Qed.

(** The caseless comparison of the engine, on any two characters, is
    [same_letter]. *)
Lemma atom_matches_Lit l c : atom_matches (Lit l) c = true ↔ same_letter l c.
Proof.
  cbn [atom_matches]. rewrite Ascii.eqb_eq. unfold toLower, same_letter, is_upper.
  pose proof (nat_ascii_bounded l) as Hl. pose proof (nat_ascii_bounded c) as Hc.
  destruct (Nat.leb_spec 65 (nat_of_ascii l)), (Nat.leb_spec (nat_of_ascii l) 90),
           (Nat.leb_spec 65 (nat_of_ascii c)), (Nat.leb_spec (nat_of_ascii c) 90);
    cbn [andb];
    (split;
     [intros Heq; apply (f_equal nat_of_ascii) in Heq;
      rewrite ?nat_ascii_embedding in Heq by lia;
      first [left; apply nat_of_ascii_inj; lia
            |right; left; lia
            |right; right; lia]
     |intros Hsame; apply nat_of_ascii_inj; rewrite ?nat_ascii_embedding by lia;
      destruct Hsame as [->|[[? ?]|[? ?]]]; lia]).
Qed.

Lemma atom_of_stands_for p c : atom_matches (atom_of p) c = true ↔ stands_for p c.
Proof.
  unfold atom_of, stands_for. destruct (Ascii.eqb p ".").
  - cbn [atom_matches]. by rewrite negb_true_iff, Ascii.eqb_neq.
  - apply atom_matches_Lit.
Qed.

Lemma match_here_spec re s :
  match_here re s = true
  ↔ ∃ mid post, String.list_ascii_of_string s = (mid ++ post)%list
                ∧ Forall2 (λ a c, atom_matches a c = true) re mid.
Proof.
  revert s. induction re as [|a re IH]; intros s.
  - destruct s; cbn [match_here]; (split; [intros _|done]);
      eexists [], _; (split; [reflexivity|constructor]).
  - destruct s as [|c s]; cbn [match_here String.list_ascii_of_string].
    + split; [done|]. intros (mid & post & Heq & Hall).
      inversion Hall; subst. discriminate.
    + rewrite andb_true_iff, IH. split.
      * intros [Ha (mid & post & Heq & Hall)]. exists (c :: mid), post.
        split; [cbn [app]; by rewrite Heq|by constructor].
      * intros (mid & post & Heq & Hall).
        inversion Hall as [|a' c' re' mid' Ha Hall']; subst.
        cbn [app] in Heq. injection Heq as -> Heq. eauto.
Qed.

Lemma RegExp_test_spec re s :
  RegExp_test re s = true
  ↔ ∃ pre mid post, String.list_ascii_of_string s = (pre ++ mid ++ post)%list
                    ∧ Forall2 (λ a c, atom_matches a c = true) re mid.
Proof.
  induction s as [|d s IH]; cbn [RegExp_test String.list_ascii_of_string].
  - rewrite orb_false_r, match_here_spec. cbn [String.list_ascii_of_string]. split.
    + intros (mid & post & Heq & Hall). by exists [], mid, post.
    + intros ([|p pre] & mid & post & Heq & Hall); [by exists mid, post|done].
  - rewrite orb_true_iff, match_here_spec, IH. cbn [String.list_ascii_of_string]. split.
    + intros [(mid & post & Heq & Hall)|(pre & mid & post & Heq & Hall)].
      * by exists [], mid, post.
      * exists (d :: pre), mid, post. cbn [app]. by rewrite Heq.
    + intros ([|p pre] & mid & post & Heq & Hall).
      * left. by exists mid, post.
      * right. cbn [app] in Heq. injection Heq as _ Heq. eauto.
Qed.

Lemma RegExp_test_literal query s :
  RegExp_test (literal_pattern query) s = true ↔ contains_ci query s.
Proof.
  rewrite RegExp_test_spec. unfold contains_ci, occurs_in, literal_pattern.
  split; intros (pre & mid & post & Heq & Hall); exists pre, mid, post;
    (split; [done|]); [apply Forall2_fmap_l in Hall|apply Forall2_fmap_l];
    (eapply Forall2_impl; [exact Hall|]); intros l c; cbn; apply atom_matches_Lit.
Qed.

Lemma RegExp_test_dotted query s :
  RegExp_test (dotted_pattern query) s = true ↔ matches_ci query s.
Proof.
  rewrite RegExp_test_spec. unfold matches_ci, occurs_in, dotted_pattern.
  split; intros (pre & mid & post & Heq & Hall); exists pre, mid, post;
    (split; [done|]); [apply Forall2_fmap_l in Hall|apply Forall2_fmap_l];
    (eapply Forall2_impl; [exact Hall|]); intros l c; cbn; apply atom_of_stands_for.
Qed.

Lemma plain_char_ordinary c : plain_char c → ordinary c = true.
Proof.
  intros [[Hpos Hascii] Hmeta]. unfold ordinary, is_ascii.
  rewrite (proj2 (Nat.ltb_lt _ _) Hpos), (proj2 (Nat.ltb_lt _ _) Hascii).
  destruct (is_meta c) eqn:Hc; [|done]. unfold is_meta in Hc.
  apply List.existsb_exists in Hc as (m & Hin & Heq%Ascii.eqb_eq). subst m.
  by apply list_elem_of_In in Hin.
Qed.

Lemma plain_char_not_dot c : plain_char c → Ascii.eqb c "." = false.
Proof.
  intros [_ Hmeta]. destruct (Ascii.eqb_spec c ".") as [->|_]; [|done].
  exfalso. apply Hmeta. apply (bool_decide_unpack _). by vm_compute.
Qed.

Lemma RegExp_compile_dotted query :
  dotted_query query → RegExp_compile query = Some (dotted_pattern query).
Proof.
  unfold dotted_query, dotted_pattern.
  induction query as [|c rest IH];
    cbn [String.list_ascii_of_string RegExp_compile fmap list_fmap]; [done|].
  intros Hall. apply Forall_cons in Hall as [Hc Hrest]. rewrite (IH Hrest).
  unfold atom_of. destruct (Ascii.eqb_spec c ".") as [->|Hne]; [done|].
  destruct Hc as [->|Hc]; [done|]. by rewrite (plain_char_ordinary _ Hc).
Qed.

Lemma plain_query_dotted query :
  plain_query query → dotted_query query ∧ dotted_pattern query = literal_pattern query.
Proof.
  unfold plain_query, dotted_query, dotted_pattern, literal_pattern.
  induction (String.list_ascii_of_string query) as [|c l IH]; [done|].
  intros Hall. apply Forall_cons in Hall as [Hc Hl]. destruct (IH Hl) as [Hdot Hpat].
  split; [constructor; auto|]. cbn [fmap list_fmap]. rewrite Hpat.
  unfold atom_of. by rewrite (plain_char_not_dot _ Hc).
Qed.

(** C9, as the code has it.  The query is compiled as a regular expression
    and matched whatever the case of the letters.  For a query of ordinary
    ASCII characters and dots, [searchBooks] answers books of the catalog,
    each once, and leaves the database as it is; a book whose title and
    author are ASCII text is among them exactly when its title or its author
    holds a string that the query stands for, every dot standing for any one
    character but a line feed.  For a query without a dot, so without any
    metacharacter, that is: exactly when its title or its author contains
    the query as a substring, whatever the case of the letters. *)
Theorem searchBooks_plain (query : string) (db : DB) :
  dotted_query query →
  ∃ prog found,
    Part001.searchBooks query = Some prog
    ∧ run prog db = (Ok found, db)
    ∧ NoDup found
    ∧ (∀ id b, (id, b) ∈ found → books db !! id = Some b)
    ∧ (∀ id b, books db !! id = Some b →
         ascii_text (title b) → ascii_text (author b) →
         ((id, b) ∈ found
          ↔ matches_ci query (title b) ∨ matches_ci query (author b)))
    ∧ (plain_query query →
       ∀ id b, books db !! id = Some b →
         ascii_text (title b) → ascii_text (author b) →
         ((id, b) ∈ found
          ↔ contains_ci query (title b) ∨ contains_ci query (author b))).
Proof.
  intros Hdotted. unfold Part001.searchBooks.
  rewrite (RegExp_compile_dotted _ Hdotted). eexists _, _.
  split; [done|]. split; [run_resolver; done|].
  assert (Hin : ∀ id b,
            (id, b) ∈ List.filter
                        (λ doc, RegExp_test (dotted_pattern query) (title doc.2)
                                || RegExp_test (dotted_pattern query) (author doc.2))
                        (map_to_list (books db))
            ↔ books db !! id = Some b
              ∧ (matches_ci query (title b) ∨ matches_ci query (author b))).
  { intros id b. rewrite list_elem_of_In, List.filter_In, <- list_elem_of_In.
    rewrite elem_of_map_to_list. cbn [snd].
    by rewrite orb_true_iff, !RegExp_test_dotted. }
  split; [|split; [|split]].
  - apply NoDup_ListNoDup, List.NoDup_filter, NoDup_ListNoDup, NoDup_map_to_list.
  - intros id b Hfound. by apply Hin in Hfound as [Hb _].
  - intros id b Hb _ _. rewrite Hin. tauto.
  - intros Hplain id b Hb _ _. rewrite Hin.
    destruct (plain_query_dotted _ Hplain) as [_ Hpat].
    rewrite <- !RegExp_test_dotted, Hpat, !RegExp_test_literal. tauto.
Qed.

Lemma searchBooks_plain_witness :
  ∃ prog found,
    Part001.searchBooks "dune" = Some prog
    ∧ run prog one_book_db = (Ok found, one_book_db)
    ∧ found = [(0%N, mkBook "Dune" "Frank Herbert" None (Some "111") 2)]
    ∧ contains_ci "dune" "Dune".
Proof.
  assert (Hplain : plain_query "dune").
  { unfold plain_query. cbn [String.list_ascii_of_string].
    repeat constructor; try (cbn; lia); apply (bool_decide_unpack _); by vm_compute. }
  assert (Htitle : ascii_text "Dune") by (unfold ascii_text; cbn; repeat constructor).
  assert (Hauthor : ascii_text "Frank Herbert")
    by (unfold ascii_text; cbn; repeat constructor).
  destruct (searchBooks_plain "dune" one_book_db (proj1 (plain_query_dotted _ Hplain)))
    as (prog & found & Hprog & Hrun & _ & _ & _ & Hcontains).
  exists prog, found. split; [done|]. split; [done|].
  assert (Hfound : found = [(0%N, dune 2)]).
  { injection Hprog as <-. vm_compute in Hrun. by injection Hrun as <-. }
  split; [done|].
  destruct (proj1 (Hcontains Hplain 0%N (dune 2) eq_refl Htitle Hauthor))
    as [Hin|Hin].
  - rewrite Hfound. apply list_elem_of_singleton. done.
  - exact Hin.
  - apply RegExp_test_literal in Hin. by vm_compute in Hin.
Defined.

(** C9, as stated, fails: the query is read as a regular expression.  The
    query "D.ne" finds the book titled "Dune", whose title and author do not
    contain "D.ne". *)
Lemma searchBooks_wildcard :
  (∃ prog, Part001.searchBooks "D.ne" = Some prog
           ∧ run prog one_book_db = (Ok [(0%N, dune 2)], one_book_db))
  ∧ ¬ contains_ci "D.ne" (title (dune 2))
  ∧ ¬ contains_ci "D.ne" (author (dune 2)).
Proof.
  split; [eexists; split; [done|]; vm_compute; reflexivity|].
  split; intros Hin%RegExp_test_literal; vm_compute in Hin; discriminate.
Qed.

(** ** Requests in flight *)

Section Race.
Variables (bid : N) (callers : list (N * Z)) (db0 : DB).

Lemma borrow_stage_mono uid now db db' p :
  borrow_stage uid bid now db0 db p →
  (∀ id br, borrowings db !! id = Some br → borrowings db' !! id = Some br) →
  (copies_of bid db = 0 → copies_of bid db' = 0) →
  borrow_stage uid bid now db0 db' p.
Proof. destruct 1; intros Hloans Hzero; constructor; eauto. Qed.

(** One request moves on; the others stay where they are. *)
Lemma race_invariant_step reqs db i c p p' db' :
  race_invariant bid callers db0 reqs db →
  callers !! i = Some c → reqs !! i = Some p → settled p = None →
  (∃ b, books db' !! bid = Some b ∧ (availableCopies b = 0 ∨ availableCopies b = 1)) →
  (∀ id br, borrowings db !! id = Some br → borrowings db' !! id = Some br) →
  (copies_of bid db = 0 → copies_of bid db' = 0) →
  borrow_stage c.1 bid c.2 db0 db' p' →
  (copies_of bid db' = 0 →
     copies_of bid db = 0
     ∨ ∃ id, p' = Return (id, mkBorrowing c.1 bid c.2 None false)
             ∧ borrowings db' !! id = Some (mkBorrowing c.1 bid c.2 None false)
             ∧ borrowings db0 !! id = None) →
  race_invariant bid callers db0 (<[i := p']> reqs) db'.
Proof.
  intros (_ & Hkept & Hlen & Hstages & Hsettled)
         Hc Hp Hrunning Hbook Hloans Hzero Hp' Hnew.
  assert (Hi : (i < length reqs)%nat) by (by eapply lookup_lt_Some).
  split; [done|]. split.
  { intros id Hid. apply Hkept. destruct (borrowings db !! id) as [br|] eqn:Hbr; [|done].
    apply Hloans in Hbr. congruence. }
  split; [by rewrite length_insert|]. split.
  - intros j cj pj Hcj. destruct (decide (j = i)) as [->|Hne].
    + rewrite list_lookup_insert_eq by done. intros [= <-]. congruence.
    + rewrite list_lookup_insert_ne by done. intros Hpj.
      eapply borrow_stage_mono; eauto.
  - intros Hcopies. destruct (Hnew Hcopies) as [Hold|(id & -> & Hid & Hfresh)].
    + destruct (Hsettled Hold) as (j & cj & id & Hcj & Hpj & Hid & Hfresh).
      exists j, cj, id. split; [done|]. split; [|by eauto].
      rewrite list_lookup_insert_ne; [done|]. intros ->.
      rewrite Hp in Hpj. injection Hpj as ->. done.
    + exists i, c, id. split; [done|]. split; [|done].
      by rewrite list_lookup_insert_eq.
Qed.

Lemma race_invariant_resume reqs db i :
  race_invariant bid callers db0 reqs db →
  race_invariant bid callers db0 (resume i reqs db).1 (resume i reqs db).2.
Proof.
  intros Hinv. unfold resume.
  destruct (reqs !! i) as [p|] eqn:Hp; [|done].
  pose proof Hinv as (Hbook & Hkept & Hlen & Hstages & Hsettled).
  destruct (callers !! i) as [c|] eqn:Hc.
  2: { apply lookup_ge_None in Hc. apply lookup_lt_Some in Hp. lia. }
  pose proof Hbook as (b & Hb & Hcopies).
  destruct (Hstages i c p Hc Hp) as [|book Hone|book Hone|book id Hone Hid Hfresh|id|e].
  - (* Book.findById *)
    cbn. rewrite Hb.
    apply (race_invariant_step _ _ _ c _ _ _ Hinv Hc Hp); try done.
    + case_bool_decide; [constructor|]. apply stage_checking. lia.
    + by left.
  - (* Borrowing.findOne *)
    cbn.
    apply (race_invariant_step _ _ _ c _ _ _ Hinv Hc Hp); try done.
    + destruct (List.find _ _); [constructor|]. by apply stage_creating.
    + by left.
  - (* Borrowing.create *)
    cbn. set (id := fresh (dom (borrowings db))).
    assert (Hid : borrowings db !! id = None) by apply fresh_id_None.
    apply (race_invariant_step _ _ _ c _ _ _ Hinv Hc Hp); cbn [books borrowings]; try done.
    + intros id' br Hbr. rewrite lookup_insert_ne; [done|congruence].
    + apply stage_saving; cbn [borrowings]; [done|by rewrite lookup_insert_eq|].
      by apply Hkept.
    + by left.
  - (* book.save() *)
    cbn. unfold exec_Book_save. cbn [availableCopies set_availableCopies].
    rewrite (alter_Some _ _ _ b) by done. rewrite Hone.
    assert (Hnow : copies_of bid
              (mkDB (<[bid := set_availableCopies (1 - 1) b]> (books db)) (borrowings db)) = 0).
    { unfold copies_of. cbn [books]. by rewrite lookup_insert_eq. }
    apply (race_invariant_step _ _ _ c _ _ _ Hinv Hc Hp); cbn [borrowings]; try done.
    + exists (set_availableCopies (1 - 1) b). cbn [books]. rewrite lookup_insert_eq.
      split; [done|]. by left.
    + by apply stage_done.
    + intros _. right. by exists id.
  - done.
  - done.
Qed.

Lemma race_invariant_interleave sched reqs db :
  race_invariant bid callers db0 reqs db →
  race_invariant bid callers db0 (interleave sched reqs db).1 (interleave sched reqs db).2.
Proof.
  revert reqs db. induction sched as [|i sched IH]; intros reqs db Hinv; [done|].
  cbn [interleave]. pose proof (race_invariant_resume reqs db i Hinv) as Hstep.
  destruct (resume i reqs db) as [reqs' db']. by apply IH.
Qed.

Lemma race_invariant_start b0 :
  books db0 !! bid = Some b0 → availableCopies b0 = 1 →
  race_invariant bid callers db0 (borrow_requests bid callers) db0.
Proof.
  intros Hb Hone. split; [exists b0; eauto|]. split; [done|].
  split; [apply length_map|]. split.
  - intros i c p Hc. unfold borrow_requests. rewrite list_lookup_fmap, Hc.
    intros [= <-]. constructor.
  - unfold copies_of. rewrite Hb. lia.
Qed.
End Race.

Lemma interleave_app {A : Type} (s1 s2 : list nat) (reqs : list (Prog A)) (db : DB) :
  interleave (s1 ++ s2)%list reqs db
  = interleave s2 (interleave s1 reqs db).1 (interleave s1 reqs db).2.
Proof.
  revert reqs db. induction s1 as [|i s1 IH]; intros reqs db; [done|].
  cbn [interleave app]. destruct (resume i reqs db) as [reqs' db']. apply IH.
Qed.

(** Resuming one request until it settles is running it to completion. *)
Lemma interleave_alone {A : Type} (p : Prog A) (db : DB) :
  ∃ n, ∀ reqs i, reqs !! i = Some p →
    interleave (replicate n i) reqs db = (<[i := settle (run p db).1]> reqs, (run p db).2).
Proof.
  revert db. induction p as [a|e|X q k IH]; intros db.
  - exists 0%nat. intros reqs i Hi. cbn. by rewrite list_insert_id.
  - exists 0%nat. intros reqs i Hi. cbn. by rewrite list_insert_id.
  - destruct (exec q db) as [x db'] eqn:Hexec.
    destruct (IH x db') as [n Hn]. exists (S n). intros reqs i Hi.
    cbn [replicate interleave run]. unfold resume. rewrite Hi, Hexec.
    rewrite Hn by (apply list_lookup_insert_eq; by eapply lookup_lt_Some).
    by rewrite list_insert_insert_eq.
Qed.

(** C6, as the code has it.  A book has one copy left and two members ask to
    borrow it.  Served one after the other (the first member having no active
    loan of the book), the first request succeeds and the second is answered
    [NO_COPIES_AVAILABLE], and that is what the schedule that resumes the
    first request until it settles, then the second, produces.  However the
    awaited database calls of the two requests interleave, the book's
    [availableCopies] stays between 0 and 1, and when it is 0 one of the
    requests has settled with its Borrowing, which is stored. *)
Theorem concurrent_borrow_spec (db0 : DB) (bid : N) (b0 : Book)
    (uid1 uid2 : N) (now1 now2 : Z) :
  books db0 !! bid = Some b0 → availableCopies b0 = 1 →
  let reqs := borrow_requests bid [(uid1, now1); (uid2, now2)] in
  (¬ has_active_borrowing uid1 bid db0 →
   ∃ loan db1,
     run (borrow_request uid1 bid now1) db0 = (Ok loan, db1)
     ∧ run (borrow_request uid2 bid now2) db1
       = (Err (AppError "No copies available" "NO_COPIES_AVAILABLE"), db1)
     ∧ copies_of bid db1 = 0
     ∧ ∃ sched, interleave sched reqs db0
                = ([Return loan;
                    Throw (AppError "No copies available" "NO_COPIES_AVAILABLE")], db1))
  ∧ (∀ sched,
       0 ≤ copies_of bid (interleave sched reqs db0).2 ≤ 1
       ∧ (copies_of bid (interleave sched reqs db0).2 = 0 →
          ∃ i c id,
            [(uid1, now1); (uid2, now2)] !! i = Some c
            ∧ (interleave sched reqs db0).1 !! i
              = Some (Return (id, mkBorrowing c.1 bid c.2 None false))
            ∧ borrowings (interleave sched reqs db0).2 !! id
              = Some (mkBorrowing c.1 bid c.2 None false)
            ∧ borrowings db0 !! id = None)).
Proof.
  intros Hb Hone. cbv zeta. split.
  - intros Hact.
    pose proof (borrowBook_success db0 uid1 bid now1 b0 Hb ltac:(lia) Hact) as Hrun1.
    fold (borrow_request uid1 bid now1) in Hrun1.
    set (loan := (fresh (dom (borrowings db0)), mkBorrowing uid1 bid now1 None false)) in *.
    set (db1 := mkDB _ _) in *.
    assert (Hb1 : books db1 !! bid = Some (set_availableCopies (availableCopies b0 - 1) b0))
      by (cbn; by rewrite lookup_insert_eq).
    assert (Hrun2 : run (borrow_request uid2 bid now2) db1
                    = (Err (AppError "No copies available" "NO_COPIES_AVAILABLE"), db1)).
    { apply (borrowBook_no_copies _ _ _ _ _ Hb1). cbn. lia. }
    exists loan, db1. split; [done|]. split; [done|]. split.
    { unfold copies_of. rewrite Hb1. cbn. lia. }
    destruct (interleave_alone (borrow_request uid1 bid now1) db0) as [n1 Hn1].
    destruct (interleave_alone (borrow_request uid2 bid now2) db1) as [n2 Hn2].
    exists (replicate n1 0%nat ++ replicate n2 1%nat)%list.
    rewrite interleave_app, Hn1 by done. rewrite Hrun1. cbn [fst snd settle].
    rewrite Hn2 by done. by rewrite Hrun2.
  - intros sched.
    pose proof (race_invariant_interleave bid _ db0 sched _ _
                  (race_invariant_start bid [(uid1, now1); (uid2, now2)] db0 b0 Hb Hone))
      as ((b & Hbook & Hcopies) & _ & _ & _ & Hsettled).
    split; [|done]. unfold copies_of. rewrite Hbook. lia.
Qed.

Lemma concurrent_borrow_spec_witness :
  let reqs := borrow_requests 0 [(1%N, 1000); (2%N, 1000)] in
  (¬ has_active_borrowing 1 0 (shelf_db 1) →
   ∃ loan db1,
     run (borrow_request 1 0 1000) (shelf_db 1) = (Ok loan, db1)
     ∧ run (borrow_request 2 0 1000) db1
       = (Err (AppError "No copies available" "NO_COPIES_AVAILABLE"), db1)
     ∧ copies_of 0 db1 = 0
     ∧ ∃ sched, interleave sched reqs (shelf_db 1)
                = ([Return loan;
                    Throw (AppError "No copies available" "NO_COPIES_AVAILABLE")], db1))
  ∧ (∀ sched,
       0 ≤ copies_of 0 (interleave sched reqs (shelf_db 1)).2 ≤ 1
       ∧ (copies_of 0 (interleave sched reqs (shelf_db 1)).2 = 0 →
          ∃ i c id,
            [(1%N, 1000); (2%N, 1000)] !! i = Some c
            ∧ (interleave sched reqs (shelf_db 1)).1 !! i
              = Some (Return (id, mkBorrowing c.1 0 c.2 None false))
            ∧ borrowings (interleave sched reqs (shelf_db 1)).2 !! id
              = Some (mkBorrowing c.1 0 c.2 None false)
            ∧ borrowings (shelf_db 1) !! id = None)).
Proof.
  apply (concurrent_borrow_spec (shelf_db 1) 0 (dune 1) 1 2 1000 1000); reflexivity.
Defined.

(** C6, as stated, fails.  One copy is left; members 1 and 2 ask to borrow
    the book and the event loop resumes them in turn.  Both read the book
    before either writes it: both succeed, two active loans are stored, and
    the book is left with 0 copies. *)
Lemma concurrent_borrow_two_successes :
  interleave [0; 1; 0; 1; 0; 1; 0; 1]%nat
             (borrow_requests 0 [(1%N, 1000); (2%N, 1000)]) (shelf_db 1)
  = ([Return (0%N, mkBorrowing 1 0 1000 None false);
      Return (1%N, mkBorrowing 2 0 1000 None false)],
     mkDB {[ 0%N := dune 0 ]}
          (<[1%N := mkBorrowing 2 0 1000 None false]>
             {[ 0%N := mkBorrowing 1 0 1000 None false ]})).
Proof. vm_compute. reflexivity. Qed.

(** ** The scenarios of the specification *)

(** Scenario A: a book has 2 copies; member 1 borrows it (1 copy left, an active loan)
    and asks again: already borrowed. *)
Example scenario_A :
  run (Part001.borrowBook (ValidId 0) (mkContext (Some 1%N)) 1000) (shelf_db 2)
  = (Ok (0%N, mkBorrowing 1 0 1000 None false),
     mkDB {[ 0%N := dune 1 ]} {[ 0%N := mkBorrowing 1 0 1000 None false ]})
  ∧ run (Part001.borrowBook (ValidId 0) (mkContext (Some 1%N)) 2000)
        (mkDB {[ 0%N := dune 1 ]} {[ 0%N := mkBorrowing 1 0 1000 None false ]})
    = (Err (AppError "Member has already borrowed this book" "ALREADY_BORROWED"),
       mkDB {[ 0%N := dune 1 ]} {[ 0%N := mkBorrowing 1 0 1000 None false ]}).
Proof. split; vm_compute; reflexivity. Qed.

(** Scenario B: no copy is left; whoever asks is refused. *)
Example scenario_B uid now :
  run (Part001.borrowBook (ValidId 0) (mkContext (Some uid)) now) (shelf_db 0)
  = (Err (AppError "No copies available" "NO_COPIES_AVAILABLE"), shelf_db 0).
Proof. by apply (borrowBook_no_copies _ _ _ _ (dune 0)). Qed.

(** Scenario C: member 1 borrows the last copy and returns it. *)
Example scenario_C :
  run (Part001.borrowBook (ValidId 0) (mkContext (Some 1%N)) 1000) (shelf_db 1)
  = (Ok (0%N, mkBorrowing 1 0 1000 None false), active_loan_db)
  ∧ run (Part001.returnBook (ValidId 0) (mkContext (Some 1%N)) 2000) active_loan_db
    = (Ok (0%N, mkBorrowing 1 0 1000 (Some 2000) true), returned_loan_db).
Proof. split; vm_compute; reflexivity. Qed.

(** Scenario D: member 2 asks to return the loan of member 1. *)
Example scenario_D :
  run (Part001.returnBook (ValidId 0) (mkContext (Some 2%N)) 2000) active_loan_db
  = (Err (AppError "Not authorized to return this book" "UNAUTHORIZED"), active_loan_db).
Proof. vm_compute. reflexivity. Qed.

(** Scenario E: an active loan borrowed 20 days ago. *)
Example scenario_E now :
  Part001.daysOverdue (mkBorrowing 1 0 (now - 20 * ms_per_day) None false) now = 6.
Proof.
  unfold Part001.daysOverdue. cbn [returned negb borrowDate].
  replace (now - (now - 20 * ms_per_day)) with (20 * ms_per_day) by lia.
  by vm_compute.
Qed.

(** * The other resolvers *)

(** ** The book queries *)

Lemma elem_of_Book_find (g : N * Book → bool) (db : DB) (doc : N * Book) :
  doc ∈ List.filter g (map_to_list (books db))
  ↔ books db !! doc.1 = Some doc.2 ∧ g doc = true.
Proof.
  rewrite list_elem_of_In, List.filter_In, <- list_elem_of_In.
  destruct doc as [id b]. by rewrite elem_of_map_to_list.
Qed.

Lemma listed_Book_find (f : Book → bool) handler db :
  listed (try_catch (found <- await (Book_find f) ;; Return found) handler) db
  = List.filter (λ d, f d.2) (map_to_list (books db)).
Proof. reflexivity. Qed.

Lemma listed_books db doc :
  doc ∈ listed BookQueries.books db ↔ books db !! doc.1 = Some doc.2.
Proof.
  unfold BookQueries.books.
  rewrite listed_Book_find, elem_of_Book_find. tauto.
Qed.

Lemma listed_availableBooks db doc :
  doc ∈ listed BookQueries.availableBooks db
  ↔ books db !! doc.1 = Some doc.2 ∧ 0 < availableCopies doc.2.
Proof.
  unfold BookQueries.availableBooks.
  rewrite listed_Book_find, elem_of_Book_find, bool_decide_eq_true.
  split; intros [? ?]; split; (done || lia).
Qed.

Lemma listed_filteredBooks c db doc :
  doc ∈ listed (BookQueries.filteredBooks c) db
  ↔ books db !! doc.1 = Some doc.2 ∧ category doc.2 = Some (Category_name c).
Proof.
  unfold BookQueries.filteredBooks.
  rewrite listed_Book_find, elem_of_Book_find. unfold has_category.
  by rewrite bool_decide_eq_true.
Qed.

Lemma book_query db bid :
  run (BookQueries.book (ValidId bid)) db
  = (match books db !! bid with
     | Some b => Ok (bid, b)
     | None => Err (AppError "Book not found" "BOOK_NOT_FOUND")
     end, db).
Proof. unfold BookQueries.book. run_resolver. by destruct (books db !! bid). Qed.

(** X3.  A successful [addBook] is seen by the queries: [book] with the new
    id answers the created book, [books] and [availableBooks] list it,
    [filteredBooks] lists it under the category of the input and under no
    other; every query still answers for the other books what it answered
    before. *)
Theorem addBook_then_queries (db db' : DB) (input : createBookInput)
    (context : Context) (created : N * Book) :
  run (Part001.addBook input context) db = (Ok created, db') →
  run (BookQueries.book (ValidId created.1)) db' = (Ok created, db')
  ∧ (∀ id, id ≠ created.1 →
       (run (BookQueries.book (ValidId id)) db').1
       = (run (BookQueries.book (ValidId id)) db).1)
  ∧ (∀ doc, doc ∈ listed BookQueries.books db'
            ↔ doc = created ∨ doc ∈ listed BookQueries.books db)
  ∧ (∀ doc, doc ∈ listed BookQueries.availableBooks db'
            ↔ doc = created ∨ doc ∈ listed BookQueries.availableBooks db)
  ∧ (∀ c doc, doc ∈ listed (BookQueries.filteredBooks c) db'
              ↔ (doc = created ∧ in_category input = Some (Category_name c))
                ∨ doc ∈ listed (BookQueries.filteredBooks c) db).
Proof.
  intros Hrun.
  destruct (addBook_cases input context db) as [[e He]|(Hpos & Hfresh & Hok)];
    [congruence|].
  rewrite Hok in Hrun. injection Hrun as <- <-. cbn [fst].
  set (id := fresh (dom (books db))) in *.
  assert (Hlookup : ∀ doc : N * Book,
            <[id := book_of_input input]> (books db) !! doc.1 = Some doc.2
            ↔ doc = (id, book_of_input input) ∨ books db !! doc.1 = Some doc.2).
  { intros [i b]. cbn [fst snd]. rewrite lookup_insert. case_decide as Hi.
    - subst i. split; [intros [= <-]; by left|].
      intros [[= <-]|Hb]; [done|congruence].
    - split; [by right|]. intros [[= -> _]|Hb]; done. }
  split; [|split; [|split; [|split]]].
  - rewrite book_query. cbn [books]. by rewrite lookup_insert_eq.
  - intros i Hi. rewrite !book_query. cbn [books fst].
    by rewrite lookup_insert_ne.
  - intros doc. rewrite !listed_books. cbn [books]. apply Hlookup.
  - intros doc. rewrite !listed_availableBooks. cbn [books]. rewrite Hlookup.
    split.
    + intros [[->|Hb] Hcopies]; [by left|by right].
    + intros [->|[Hb Hcopies]]; [|by split; [right|]].
      split; [by left|]. cbn. lia.
  - intros c doc. rewrite !listed_filteredBooks. cbn [books]. rewrite Hlookup.
    split.
    + intros [[->|Hb] Hcat]; [left|by right]. done.
    + intros [[-> Hcat]|[Hb Hcat]]; [|by split; [right|]].
      split; [by left|done].
Qed.

Lemma addBook_then_queries_witness :
  run (BookQueries.book (ValidId 0)) (mkDB {[ 0%N := book_of_input (foundation 2) ]} ∅)
  = (Ok (0%N, book_of_input (foundation 2)), mkDB {[ 0%N := book_of_input (foundation 2) ]} ∅)
  ∧ (∀ id, id ≠ 0%N →
       (run (BookQueries.book (ValidId id)) (mkDB {[ 0%N := book_of_input (foundation 2) ]} ∅)).1
       = (run (BookQueries.book (ValidId id)) emptyDB).1)
  ∧ (∀ doc, doc ∈ listed BookQueries.books (mkDB {[ 0%N := book_of_input (foundation 2) ]} ∅)
            ↔ doc = (0%N, book_of_input (foundation 2)) ∨ doc ∈ listed BookQueries.books emptyDB)
  ∧ (∀ doc, doc ∈ listed BookQueries.availableBooks
                    (mkDB {[ 0%N := book_of_input (foundation 2) ]} ∅)
            ↔ doc = (0%N, book_of_input (foundation 2))
              ∨ doc ∈ listed BookQueries.availableBooks emptyDB)
  ∧ (∀ c doc, doc ∈ listed (BookQueries.filteredBooks c)
                      (mkDB {[ 0%N := book_of_input (foundation 2) ]} ∅)
              ↔ (doc = (0%N, book_of_input (foundation 2))
                 ∧ in_category (foundation 2) = Some (Category_name c))
                ∨ doc ∈ listed (BookQueries.filteredBooks c) emptyDB).
Proof.
  apply (addBook_then_queries emptyDB (mkDB {[ 0%N := book_of_input (foundation 2) ]} ∅)
           (foundation 2) (mkContext (Some 1%N)) (0%N, book_of_input (foundation 2))).
  vm_compute. reflexivity.
Defined.

(** X4.  [availableBooks] lists the books that can be borrowed: for a member
    without an active loan of a stored book, the book is listed exactly when
    the member's [borrowBook] request succeeds.  After the loan the book is
    still listed exactly when it had at least two copies, and the other
    books are listed as before. *)
Theorem availableBooks_borrowable (db : DB) (uid bid : N) (b : Book) (now : Z) :
  books db !! bid = Some b → ¬ has_active_borrowing uid bid db →
  ((bid, b) ∈ listed BookQueries.availableBooks db
   ↔ ∃ loan db',
       run (Part001.borrowBook (ValidId bid) (mkContext (Some uid)) now) db = (Ok loan, db'))
  ∧ (∀ loan db',
       run (Part001.borrowBook (ValidId bid) (mkContext (Some uid)) now) db = (Ok loan, db') →
       ((∃ b', (bid, b') ∈ listed BookQueries.availableBooks db') ↔ 2 ≤ availableCopies b)
       ∧ ∀ doc, doc.1 ≠ bid →
           (doc ∈ listed BookQueries.availableBooks db'
            ↔ doc ∈ listed BookQueries.availableBooks db)).
Proof.
  intros Hb Hact. split.
  - rewrite listed_availableBooks. cbn [fst snd]. split.
    + intros [_ Hpos]. eexists _, _. by apply (borrowBook_success _ _ _ _ b).
    + intros (loan & db' & Hrun).
      apply borrowBook_Ok_inv in Hrun as [(b' & Hb' & Hpos) _].
      split; [done|]. congruence.
  - intros loan db' Hrun.
    pose proof Hrun as [(b' & Hb' & Hpos) _]%borrowBook_Ok_inv.
    assert (b' = b) as -> by congruence.
    rewrite (borrowBook_success _ _ _ _ b) in Hrun by done.
    injection Hrun as <- <-. split.
    + split.
      * intros (b' & [Hb1 Hpos1]%listed_availableBooks).
        cbn [books fst snd] in Hb1. rewrite lookup_insert_eq in Hb1.
        injection Hb1 as <-. cbn in Hpos1. lia.
      * intros Htwo. exists (set_availableCopies (availableCopies b - 1) b).
        apply listed_availableBooks. cbn [books fst snd].
        rewrite lookup_insert_eq. split; [done|]. cbn. lia.
    + intros doc Hne. rewrite !listed_availableBooks. cbn [books].
      by rewrite lookup_insert_ne.
Qed.

Lemma availableBooks_borrowable_witness :
  ((0%N, dune 1) ∈ listed BookQueries.availableBooks (shelf_db 1)
   ↔ ∃ loan db',
       run (Part001.borrowBook (ValidId 0) (mkContext (Some 1%N)) 1000) (shelf_db 1)
       = (Ok loan, db'))
  ∧ (∀ loan db',
       run (Part001.borrowBook (ValidId 0) (mkContext (Some 1%N)) 1000) (shelf_db 1)
       = (Ok loan, db') →
       ((∃ b', (0%N, b') ∈ listed BookQueries.availableBooks db')
        ↔ 2 ≤ availableCopies (dune 1))
       ∧ ∀ doc, doc.1 ≠ 0%N →
           (doc ∈ listed BookQueries.availableBooks db'
            ↔ doc ∈ listed BookQueries.availableBooks (shelf_db 1))).
Proof.
  apply (availableBooks_borrowable (shelf_db 1) 1 0 (dune 1) 1000); [reflexivity|].
  intros (id & br & Hbr & _). cbn in Hbr. by rewrite lookup_empty in Hbr.
Defined.

(** ** Errors *)

(** A [catch] block that only throws [AppError]s lets nothing else out. *)
Lemma try_catch_AppError {A : Type} (body : Prog A) (handler : Exn → Prog A) (db : DB) :
  (∀ e, ∃ message code, handler e = Throw (AppError message code)) →
  fails_with_AppError (run (try_catch body handler) db).1.
Proof.
  intros Hhandler. revert db. induction body as [a|e|X q k IH]; intros db.
  - done.
  - cbn [try_catch]. destruct (Hhandler e) as (message & code & ->). cbn. eauto.
  - cbn [try_catch run]. destruct (exec q db) as [x db']. apply IH.
Qed.

Lemma rethrow_AppError {A : Type} message code e :
  ∃ message' code', @Part001.rethrow A message code e = Throw (AppError message' code').
Proof. destruct e; cbn; eauto. Qed.

(** X5.  Whatever the body of a resolver throws, the [catch] block of the
    version with error codes lets only [AppError]s out, so [formatError]
    never answers "Internal server error" for it: the client reads the
    message and the code of the [AppError].  This covers [addBook],
    [borrowBook], [returnBook] and the queries [book], [books],
    [availableBooks] and [filteredBooks]. *)
Theorem resolvers_fail_with_AppError (db : DB) :
  (∀ (A : Type) (body : Prog A) message code,
     fails_with_AppError (run (try_catch body (Part001.rethrow message code)) db).1)
  ∧ (∀ input context, fails_with_AppError (run (Part001.addBook input context) db).1)
  ∧ (∀ bookId context now,
       fails_with_AppError (run (Part001.borrowBook bookId context now) db).1)
  ∧ (∀ borrowingId context now,
       fails_with_AppError (run (Part001.returnBook borrowingId context now) db).1)
  ∧ (∀ id, fails_with_AppError (run (BookQueries.book id) db).1)
  ∧ fails_with_AppError (run BookQueries.books db).1
  ∧ fails_with_AppError (run BookQueries.availableBooks db).1
  ∧ (∀ c, fails_with_AppError (run (BookQueries.filteredBooks c) db).1).
Proof.
  repeat split; intros; apply try_catch_AppError;
    first [apply rethrow_AppError | intros; eexists _, _; reflexivity].
Qed.

Lemma addBook_guard_error input context db e db' :
  run (Part001.addBook input context) db = (Err e, db') → is_guard_error e.
Proof.
  destruct context as [[uid|]]; [|intros [= <- _]; guard_code].
  destruct (decide (input_missing input)) as [Hmiss|Hmiss];
    [rewrite addBook_missing by done; intros [= <- _]; guard_code|].
  destruct (decide (in_copies input < 1)) as [Hneg|Hpos];
    [rewrite addBook_negative_copies by done; intros [= <- _]; guard_code|].
  destruct (List.find (has_isbn (Some (in_isbn input))) (values (books db))) eqn:Hfind.
  - rewrite addBook_isbn_exists; [intros [= <- _]; guard_code|done|lia|].
    apply find_values_Some in Hfind as [Hi [id Hid]].
    exists id, b. split; [done|]. by apply bool_decide_eq_true in Hi.
  - by rewrite addBook_success; [|done|lia|apply findOne_isbn_None].
Qed.

Lemma borrowBook_guard_error bookId context now db e db' :
  run (Part001.borrowBook bookId context now) db = (Err e, db') → is_guard_error e.
Proof.
  destruct context as [[uid|]]; [|intros [= <- _]; guard_code].
  destruct bookId as [bid|s]; [|intros [= <- _]; guard_code].
  destruct (books db !! bid) as [b|] eqn:Hb;
    [|rewrite borrowBook_not_found by done; intros [= <- _]; guard_code].
  destruct (decide (availableCopies b ≤ 0)) as [Hle|Hpos];
    [rewrite (borrowBook_no_copies _ _ _ _ b) by done; intros [= <- _]; guard_code|].
  destruct (List.find (borrowing_matches uid bid false) (values (borrowings db)))
    as [existing|] eqn:Hfind.
  - rewrite (borrowBook_already_borrowed _ _ _ _ b); [intros [= <- _]; guard_code|done|lia|].
    apply find_values_Some in Hfind as [Hm [id Hid]].
    apply borrowing_matches_true in Hm. by exists id, existing.
  - by rewrite (borrowBook_success _ _ _ _ b); [|done|lia|apply findOne_active_None].
Qed.

(** When the books of the loans are in the catalog, [returnBook] does not
    reach its [catch] block with a foreign error. *)
Lemma returnBook_guard_error borrowingId context now db e db' :
  (∀ brid br, borrowings db !! brid = Some br → is_Some (books db !! book br)) →
  run (Part001.returnBook borrowingId context now) db = (Err e, db') → is_guard_error e.
Proof.
  intros Hrefs.
  destruct context as [[uid|]]; [|intros [= <- _]; guard_code].
  destruct borrowingId as [brid|s]; [|intros [= <- _]; guard_code].
  destruct (borrowings db !! brid) as [br|] eqn:Hbr;
    [|rewrite returnBook_not_found by done; intros [= <- _]; guard_code].
  destruct (decide (member br = uid)) as [Hm|Hm];
    [|rewrite (returnBook_unauthorized _ _ _ _ br) by done; intros [= <- _]; guard_code].
  destruct (returned br) eqn:Hret;
    [rewrite (returnBook_already_returned _ _ _ _ br) by done; intros [= <- _]; guard_code|].
  destruct (Hrefs brid br Hbr) as [b Hb].
  by rewrite (returnBook_success _ _ _ _ br b).
Qed.

Lemma replay_errors_guard ops db totals :
  consistent db totals → Forall is_guard_error (replay_errors ops db).
Proof.
  revert db totals. induction ops as [|op ops IH]; intros db totals Hdb; [constructor|].
  assert (Hnext : Forall is_guard_error (replay_errors ops (apply_op op db))).
  { apply (IH _ (record_totalCopies op db totals)). destruct op.
    - by apply consistent_addBook.
    - by apply consistent_borrowBook.
    - by apply consistent_returnBook. }
  cbn [replay_errors]. destruct (op_error op db) as [e|] eqn:Herr; [|done].
  constructor; [|done]. destruct op as [input context|bookId context now|brid context now];
    cbn [op_error] in Herr.
  - destruct (run (Part001.addBook input context) db) as [[created|e'] db'] eqn:Hrun;
      cbn in Herr; [done|]. injection Herr as ->. by eapply addBook_guard_error.
  - destruct (run (Part001.borrowBook bookId context now) db) as [[loan|e'] db'] eqn:Hrun;
      cbn in Herr; [done|]. injection Herr as ->. by eapply borrowBook_guard_error.
  - destruct (run (Part001.returnBook brid context now) db) as [[loan|e'] db'] eqn:Hrun;
      cbn in Herr; [done|]. injection Herr as ->.
    eapply returnBook_guard_error; [|done]. apply Hdb.
Qed.

(** X6.  Serve any history of [addBook], [borrowBook] and [returnBook]
    requests, one after the other, from an empty database.  Every error
    answered is one that a resolver throws itself, with one of the eleven
    codes of [guard_codes]: no request reaches a [catch] block with a foreign
    error, so none is answered [ADD_BOOK_ERROR], [BORROW_BOOK_ERROR] or
    [RETURN_BOOK_ERROR]. *)
Theorem history_errors_are_guards (ops : list Op) :
  Forall is_guard_error (replay_errors ops emptyDB)
  ∧ ("ADD_BOOK_ERROR" ∉ guard_codes) ∧ ("BORROW_BOOK_ERROR" ∉ guard_codes)
  ∧ ("RETURN_BOOK_ERROR" ∉ guard_codes).
Proof.
  split; [apply (replay_errors_guard ops emptyDB ∅ consistent_empty)|].
  repeat split; apply (bool_decide_unpack _); by vm_compute.
Qed.

(** X7.  In the database that a history leaves, the [book] field of every
    stored Borrowing resolves to a book of the catalog, never to [null]. *)
Theorem Borrowing_book_found (ops : list Op) (brid : N) (br : Borrowing) :
  borrowings (replay ops emptyDB ∅).1 !! brid = Some br →
  ∃ b, run (BorrowingFields.book br) (replay ops emptyDB ∅).1
       = (Ok (Some b), (replay ops emptyDB ∅).1).
Proof.
  intros Hbr.
  destruct (consistent_replay ops emptyDB ∅ consistent_empty) as [_ Hrefs].
  destruct (Hrefs brid br Hbr) as [b Hb]. exists b.
  unfold BorrowingFields.book. cbn [run exec]. by rewrite Hb.
Qed.

Lemma Borrowing_book_found_witness :
  ∃ b, run (BorrowingFields.book (mkBorrowing 2 0 3000 None false))
           (replay sample_history emptyDB ∅).1
       = (Ok (Some b), (replay sample_history emptyDB ∅).1).
Proof.
  apply (Borrowing_book_found sample_history 1%N (mkBorrowing 2 0 3000 None false)).
  vm_compute. reflexivity.
Defined.

(** ** The loans of a member *)

Lemma elem_of_find_sorted (f : Borrowing → bool) db (doc : N * Borrowing) :
  doc ∈ Borrowing_find_sorted f db
  ↔ borrowings db !! doc.1 = Some doc.2 ∧ f doc.2 = true.
Proof.
  unfold Borrowing_find_sorted. rewrite sorting.merge_sort_Permutation.
  rewrite list_elem_of_In, List.filter_In, <- list_elem_of_In.
  destruct doc as [id br]. by rewrite elem_of_map_to_list.
Qed.

Lemma NoDup_find_sorted (f : Borrowing → bool) db :
  NoDup (Borrowing_find_sorted f db).*1.
Proof.
  unfold Borrowing_find_sorted. rewrite sorting.merge_sort_Permutation.
  assert (Hsub : List.filter (λ doc : N * Borrowing, f doc.2) (map_to_list (borrowings db))
                 `sublist_of` map_to_list (borrowings db)).
  { induction (map_to_list (borrowings db)) as [|d l IH]; [done|].
    cbn. destruct (f d.2); by constructor. }
  apply (sublist_NoDup _ (map_to_list (borrowings db)).*1);
    [apply NoDup_fst_map_to_list|by apply fmap_sublist].
Qed.

Lemma sorted_populated (f : Borrowing → bool) db :
  Sorted.StronglySorted later_first_populated (populate_book db <$> Borrowing_find_sorted f db).
Proof.
  apply (sorting.StronglySorted_fmap _ later_first later_first_populated); [done|].
  apply sorting.StronglySorted_merge_sort; apply _.
Qed.

Lemma elem_of_populated (f : Borrowing → bool) db (x : N * Borrowing * option Book) :
  x ∈ populate_book db <$> Borrowing_find_sorted f db
  ↔ borrowings db !! x.1.1 = Some x.1.2 ∧ f x.1.2 = true ∧ x.2 = books db !! book x.1.2.
Proof.
  rewrite list_elem_of_fmap. split.
  - intros (doc & -> & Hdoc). apply elem_of_find_sorted in Hdoc as [Hbr Hf]. done.
  - intros (Hbr & Hf & Hbook). exists x.1. split.
    + destruct x as [doc bk]. cbn in *. unfold populate_book. by rewrite Hbook.
    + by apply elem_of_find_sorted.
Qed.

(** X8.  [Member.borrowings] answers exactly the stored loans of the member,
    each once and with its book populated, later loans first;
    [Member.activeBorrowings] answers, in the same way, those of them that are
    not returned. *)
Theorem Member_borrowings_spec (db : DB) (uid : N) :
  (∀ x, x ∈ MemberFields.borrowings uid db
        ↔ borrowings db !! x.1.1 = Some x.1.2 ∧ member x.1.2 = uid
          ∧ x.2 = books db !! book x.1.2)
  ∧ (∀ x, x ∈ MemberFields.activeBorrowings uid db
          ↔ x ∈ MemberFields.borrowings uid db ∧ returned x.1.2 = false)
  ∧ NoDup ((λ x, x.1.1) <$> MemberFields.borrowings uid db)
  ∧ NoDup ((λ x, x.1.1) <$> MemberFields.activeBorrowings uid db)
  ∧ Sorted.StronglySorted later_first_populated (MemberFields.borrowings uid db)
  ∧ Sorted.StronglySorted later_first_populated (MemberFields.activeBorrowings uid db).
Proof.
  assert (Hall : ∀ x, x ∈ MemberFields.borrowings uid db
            ↔ borrowings db !! x.1.1 = Some x.1.2 ∧ member x.1.2 = uid
              ∧ x.2 = books db !! book x.1.2).
  { intros x. unfold MemberFields.borrowings.
    by rewrite elem_of_populated, bool_decide_eq_true. }
  split; [done|]. split; [|split; [|split; [|split]]].
  - intros x. rewrite Hall. unfold MemberFields.activeBorrowings.
    rewrite elem_of_populated, andb_true_iff, !bool_decide_eq_true. tauto.
  - unfold MemberFields.borrowings. rewrite <- list_fmap_compose.
    apply NoDup_find_sorted.
  - unfold MemberFields.activeBorrowings. rewrite <- list_fmap_compose.
    apply NoDup_find_sorted.
  - apply sorted_populated.
  - apply sorted_populated.
Qed.

(** X9.  In the database that a history of requests leaves, the active loans
    that [Member.activeBorrowings] answers for a member are of pairwise
    different books, and every loan that [Member.borrowings] answers has its
    book populated (never [null]). *)
Theorem Member_loans_after_history (ops : list Op) (uid : N) :
  NoDup ((λ x, book x.1.2) <$> MemberFields.activeBorrowings uid (replay ops emptyDB ∅).1)
  ∧ Forall (λ x, is_Some x.2) (MemberFields.borrowings uid (replay ops emptyDB ∅).1).
Proof.
  set (db := (replay ops emptyDB ∅).1).
  assert (Hone : one_active_loan_each db).
  { apply one_active_loan_replay. intros id1 id2 br1 br2 Hbr1.
    cbn in Hbr1. by rewrite lookup_empty in Hbr1. }
  destruct (consistent_replay ops emptyDB ∅ consistent_empty) as [_ Hrefs].
  fold db in Hrefs. split.
  - apply NoDup_fmap_2_strong.
    + intros [[id1 br1] bk1] [[id2 br2] bk2] Hx Hy Hbook.
      unfold MemberFields.activeBorrowings in Hx, Hy.
      apply elem_of_populated in Hx as (Hbr1 & Hf1 & Hbk1).
      apply elem_of_populated in Hy as (Hbr2 & Hf2 & Hbk2).
      cbn [fst snd] in *.
      apply andb_true_iff in Hf1 as [Hm1%bool_decide_eq_true Hr1%bool_decide_eq_true].
      apply andb_true_iff in Hf2 as [Hm2%bool_decide_eq_true Hr2%bool_decide_eq_true].
      assert (id1 = id2) as ->
        by (apply (Hone id1 id2 br1 br2); congruence).
      assert (br1 = br2) as -> by congruence. congruence.
    + unfold MemberFields.activeBorrowings.
      apply (NoDup_fmap_1 (λ x : N * Borrowing * option Book, x.1.1)).
      rewrite <- list_fmap_compose. apply NoDup_find_sorted.
  - apply Forall_forall. intros x Hx.
    unfold MemberFields.borrowings in Hx.
    apply elem_of_populated in Hx as (Hbr & _ & ->). by apply (Hrefs x.1.1).
Qed.

(** X10.  A loan is among the [activeBorrowings] of its member from the
    successful [borrowBook] on, populated with the book and its lowered copy
    count; once the member has returned it, it is no longer among them, and
    [borrowings] answers it as returned, with its return date. *)
Theorem loan_in_activeBorrowings (db db1 : DB) (uid bid : N) (now : Z)
    (loan : N * Borrowing) :
  run (Part001.borrowBook (ValidId bid) (mkContext (Some uid)) now) db = (Ok loan, db1) →
  (∃ bk, (loan, Some bk) ∈ MemberFields.activeBorrowings uid db1
         ∧ availableCopies bk = copies_of bid db - 1)
  ∧ ∀ now2 db2 back,
      run (Part001.returnBook (ValidId loan.1) (mkContext (Some uid)) now2) db1
      = (Ok back, db2) →
      (∀ x, x ∈ MemberFields.activeBorrowings uid db2 → x.1.1 ≠ loan.1)
      ∧ ∃ bk, (back, Some bk) ∈ MemberFields.borrowings uid db2
              ∧ returned back.2 = true ∧ returnDate back.2 = Some now2
              ∧ availableCopies bk = copies_of bid db.
Proof.
  intros Hborrow.
  destruct (borrowBook_Ok_inv _ _ _ _ _ _ Hborrow) as [(b & Hb & Hpos) Hact].
  rewrite (borrowBook_success _ _ _ _ b Hb Hpos Hact) in Hborrow.
  injection Hborrow as <- <-. cbn [fst].
  set (id := fresh (dom (borrowings db))).
  set (br := mkBorrowing uid bid now None false).
  set (b1 := set_availableCopies (availableCopies b - 1) b).
  split.
  - exists b1. split; [|unfold copies_of; by rewrite Hb].
    unfold MemberFields.activeBorrowings. apply elem_of_populated.
    cbn [fst snd books borrowings book member returned].
    rewrite !lookup_insert_eq. split; [done|]. split; [|done].
    by rewrite !bool_decide_eq_true_2.
  - intros now2 db2 back Hreturn.
    rewrite (returnBook_success _ _ _ _ br b1) in Hreturn;
      [|cbn [borrowings]; by rewrite lookup_insert_eq|done|done
       |cbn [books book br]; by rewrite lookup_insert_eq].
    injection Hreturn as <- <-. split.
    + intros x Hx Hid. unfold MemberFields.activeBorrowings in Hx.
      apply elem_of_populated in Hx as (Hbr & Hf & _).
      cbn [borrowings] in Hbr. rewrite Hid, lookup_insert_eq in Hbr.
      apply andb_true_iff in Hf as [_ Hr%bool_decide_eq_true].
      injection Hbr as Hbr. rewrite <- Hbr in Hr. done.
    + exists (set_availableCopies (availableCopies b1 + 1) b1).
      split; [|split; [done|split; [done|]]].
      * unfold MemberFields.borrowings. apply elem_of_populated.
        cbn [fst snd books borrowings book member set_returned br].
        rewrite !lookup_insert_eq. split; [done|]. split; [|done].
        by rewrite bool_decide_eq_true_2.
      * unfold copies_of. rewrite Hb. cbn. lia.
Qed.

Lemma loan_in_activeBorrowings_witness :
  (∃ bk, ((0%N, mkBorrowing 1 0 1000 None false), Some bk)
         ∈ MemberFields.activeBorrowings 1 active_loan_db
         ∧ availableCopies bk = copies_of 0 (shelf_db 1) - 1)
  ∧ ∀ now2 db2 back,
      run (Part001.returnBook (ValidId 0) (mkContext (Some 1%N)) now2) active_loan_db
      = (Ok back, db2) →
      (∀ x, x ∈ MemberFields.activeBorrowings 1 db2 → x.1.1 ≠ 0%N)
      ∧ ∃ bk, (back, Some bk) ∈ MemberFields.borrowings 1 db2
              ∧ returned back.2 = true ∧ returnDate back.2 = Some now2
              ∧ availableCopies bk = copies_of 0 (shelf_db 1).
Proof.
  apply (loan_in_activeBorrowings (shelf_db 1) active_loan_db 1 0 1000
           (0%N, mkBorrowing 1 0 1000 None false)).
  vm_compute. reflexivity.
Defined.

(** ** The request context *)

Lemma String_split_no_space t :
  no_space t →
  String_split " " t = [t]
  ∧ ∀ rest, String_split " " (String.append t (String " " rest))
            = t :: String_split " " rest.
Proof.
  unfold no_space. induction t as [|c t IH]; intros Hno.
  - split; [done|]. intros rest. reflexivity.
  - cbn [String.list_ascii_of_string] in Hno. apply Forall_cons in Hno as [Hc Hno].
    destruct (IH Hno) as [IH1 IH2]. apply Ascii.eqb_neq in Hc.
    split; [|intros rest]; simpl; rewrite Hc.
    + by rewrite IH1.
    + by rewrite IH2.
Qed.

(** X11.  The request context carries a member id only for an
    [Authorization] header that starts with "Bearer " (with this very case):
    without a header or with another one, [userId] is [null] whatever the
    token.  For "Bearer " followed by a credential without space, the member
    id is what [jwt.verify] finds in the credential, and anything after a
    further space is ignored. *)
Theorem context_spec (jwt_verify : string → option N) :
  context jwt_verify None = mkContext None
  ∧ (∀ header, String.prefix "Bearer " header = false →
       context jwt_verify (Some header) = mkContext None)
  ∧ (∀ credential rest,
       no_space credential → rest = "" ∨ (∃ more, rest = String " " more) →
       context jwt_verify (Some (String.append "Bearer " (String.append credential rest)))
       = mkContext (jwt_verify credential)).
Proof.
  split; [done|]. split.
  - intros header Hprefix. unfold context.
    change (default "" (Some header)) with header. cbv zeta. rewrite Hprefix.
    by rewrite andb_false_r.
  - intros credential rest Hno Hrest. unfold context.
    set (token := String.append "Bearer " (String.append credential rest)).
    change (default "" (Some token)) with token. cbv zeta.
    assert (Hprefix : String.prefix "Bearer " token = true).
    { unfold token. simpl. by destruct (String.append credential rest). }
    rewrite Hprefix. rewrite bool_decide_eq_false_2 by done. cbn [negb andb].
    change token
      with (String.append "Bearer" (String " " (String.append credential rest))).
    assert (Hbearer : no_space "Bearer") by (repeat constructor; done).
    destruct (String_split_no_space "Bearer" Hbearer) as [_ ->].
    destruct (String_split_no_space credential Hno) as [Hone Hmore].
    destruct Hrest as [->|[more ->]].
    + assert (String.append credential "" = credential) as ->.
      { clear. induction credential as [|c s IH]; [done|].
        rewrite <- IH at 2. reflexivity. }
      rewrite Hone. reflexivity.
    + rewrite Hmore. reflexivity.
Qed.

(** ** The membership number *)

Lemma log2_div10 (n : N) : (10 ≤ n → N.log2 (n / 10) < N.log2 n)%N.
Proof.
  intros Hn.
  assert (Hq : (0 < n / 10)%N) by (apply N.div_str_pos; lia).
  pose proof (N.log2_double (n / 10) Hq) as Hdouble.
  assert (Hle : (2 * (n / 10) ≤ n)%N).
  { pose proof (N.Div0.mul_div_le n 10). lia. }
  apply N.log2_le_mono in Hle. lia.
Qed.

Lemma Number_toString_aux_fuel (fuel1 fuel2 : nat) (n : N) :
  (N.to_nat (N.log2 n) < fuel1)%nat → (N.to_nat (N.log2 n) < fuel2)%nat →
  Number_toString_aux fuel1 n = Number_toString_aux fuel2 n.
Proof.
  revert fuel2 n. induction fuel1 as [|fuel1 IH]; intros fuel2 n H1 H2; [lia|].
  destruct fuel2 as [|fuel2]; [lia|]. cbn [Number_toString_aux].
  destruct (N.ltb_spec n 10) as [Hlt|Hge]; [done|].
  pose proof (log2_div10 n Hge). f_equal. apply IH; lia.
Qed.

Lemma Number_toString_unfold (n : N) :
  Number_toString n
  = if (n <? 10)%N then [digit n]
    else (Number_toString (n / 10) ++ [digit (n mod 10)])%list.
Proof.
  unfold Number_toString at 1. cbn [Number_toString_aux].
  destruct (N.ltb_spec n 10) as [Hlt|Hge]; [done|].
  pose proof (log2_div10 n Hge). f_equal. apply Number_toString_aux_fuel; lia.
Qed.

Lemma slice_last_snoc (k : nat) (s : list ascii) (c : ascii) :
  slice_last (S k) (s ++ [c])%list = (slice_last k s ++ [c])%list.
Proof.
  unfold slice_last. rewrite length_app. cbn [length].
  replace (length s + 1 - S k)%nat with (length s - k)%nat by lia.
  rewrite drop_app_le by lia. done.
Qed.

Lemma slice_last_1 (n : N) : slice_last 1 (Number_toString n) = [digit (n mod 10)].
Proof.
  rewrite Number_toString_unfold. destruct (N.ltb_spec n 10) as [Hlt|Hge].
  - by rewrite N.mod_small.
  - rewrite slice_last_snoc. unfold slice_last. by rewrite Nat.sub_0_r, drop_all.
Qed.

(** The last six characters are the last six digits. *)
Lemma slice_last_6 (n : N) :
  (100000 ≤ n)%N →
  slice_last 6 (Number_toString n)
  = [digit (n / 100000 mod 10); digit (n / 10000 mod 10); digit (n / 1000 mod 10);
     digit (n / 100 mod 10); digit (n / 10 mod 10); digit (n mod 10)].
Proof.
  intros Hn.
  assert (Hstep : ∀ k m, (10 ≤ m)%N →
            slice_last (S k) (Number_toString m)
            = (slice_last k (Number_toString (m / 10)) ++ [digit (m mod 10)])%list).
  { intros k m Hm. rewrite (Number_toString_unfold m).
    destruct (N.ltb_spec m 10); [lia|]. apply slice_last_snoc. }
  assert (Hdiv : ∀ a b c, (b ≠ 0 → c ≠ 0 → a / b / c = a / (b * c))%N)
    by (intros; by rewrite N.Div0.div_div).
  rewrite Hstep by lia.
  rewrite Hstep by (apply N.div_le_lower_bound; lia).
  rewrite Hstep by (rewrite Hdiv by lia; apply N.div_le_lower_bound; lia).
  rewrite !Hdiv by lia.
  rewrite Hstep by (apply N.div_le_lower_bound; lia).
  rewrite !Hdiv by lia.
  rewrite Hstep by (apply N.div_le_lower_bound; lia).
  rewrite !Hdiv by lia.
  rewrite slice_last_1. reflexivity.
Qed.

Lemma digit_inj (d1 d2 : N) : (d1 < 10 → d2 < 10 → digit d1 = digit d2 → d1 = d2)%N.
Proof.
  intros H1 H2 Heq. unfold digit in Heq.
  apply (f_equal N_of_ascii) in Heq.
  rewrite !N_ascii_embedding in Heq by lia. lia.
Qed.

Lemma mod_million_digits (n : N) :
  (n mod 1000000
   = n mod 10 + 10 * (n / 10 mod 10 + 10 * (n / 100 mod 10 + 10 * (n / 1000 mod 10
     + 10 * (n / 10000 mod 10 + 10 * (n / 100000 mod 10))))))%N.
Proof.
  change 1000000%N with (10 * (10 * (10 * (10 * (10 * 10)))))%N.
  rewrite !N.Div0.mod_mul_r, !N.Div0.div_div. reflexivity.
Qed.

Lemma digit_of_mod (n k j : N) :
  (k ≠ 0 → (n mod (k * (10 * j))) / k mod 10 = n / k mod 10)%N.
Proof.
  intros Hk. rewrite N.Div0.mod_mul_r.
  rewrite (N.mul_comm k), N.div_add by done.
  rewrite (N.div_small (n mod k)) by (by apply N.mod_lt).
  rewrite N.add_0_l, N.Div0.mod_mul_r.
  rewrite (N.mul_comm 10), N.Div0.mod_add. apply N.Div0.mod_mod.
Qed.

Lemma last_digit_of_mod (n j : N) : ((n mod (10 * j)) mod 10 = n mod 10)%N.
Proof.
  rewrite N.Div0.mod_mul_r, (N.mul_comm 10), N.Div0.mod_add. apply N.Div0.mod_mod.
Qed.

Lemma membershipNumber_digits (now : N) :
  (100000 ≤ now)%N →
  membershipNumber now
  = String.string_of_list_ascii
      (String.list_ascii_of_string "MEM" ++
       [digit (now / 100000 mod 10); digit (now / 10000 mod 10);
        digit (now / 1000 mod 10); digit (now / 100 mod 10);
        digit (now / 10 mod 10); digit (now mod 10)])%list.
Proof. intros Hn. unfold membershipNumber. by rewrite slice_last_6. Qed.

(** X12. The membership number that registerMember builds from the clock,
    MEM followed by the last six characters of the decimal notation of
    Date.now(), has nine characters once the clock shows at least 100000
    milliseconds, and two registrations receive the same number exactly when
    their clock values agree modulo one million: the number comes back every
    thousand seconds, and two registrations in one millisecond share it. *)
Theorem membershipNumber_collision (now1 now2 : N) :
  (100000 ≤ now1)%N → (100000 ≤ now2)%N →
  String.length (membershipNumber now1) = 9%nat ∧
  (membershipNumber now1 = membershipNumber now2
   ↔ (now1 mod 1000000 = now2 mod 1000000)%N).
Proof.
  intros H1 H2. rewrite !membershipNumber_digits by done. split; [reflexivity|].
  assert (Hd : ∀ n k, (n / k mod 10 < 10)%N) by (intros; apply N.mod_lt; lia).
  assert (Hm : ∀ n, (n mod 10 < 10)%N) by (intros; apply N.mod_lt; lia).
  split.
  - intros Heq.
    apply (f_equal String.list_ascii_of_string) in Heq.
    rewrite !String.list_ascii_of_string_of_list_ascii in Heq.
    cbn in Heq. injection Heq as E5 E4 E3 E2 E1 E0.
    apply digit_inj in E5, E4, E3, E2, E1, E0; try done.
    rewrite (mod_million_digits now1), (mod_million_digits now2).
    by rewrite E5, E4, E3, E2, E1, E0.
  - intros Heq.
    rewrite <- (digit_of_mod now1 100000 1), <- (digit_of_mod now2 100000 1) by done.
    rewrite <- (digit_of_mod now1 10000 10), <- (digit_of_mod now2 10000 10) by done.
    rewrite <- (digit_of_mod now1 1000 100), <- (digit_of_mod now2 1000 100) by done.
    rewrite <- (digit_of_mod now1 100 1000), <- (digit_of_mod now2 100 1000) by done.
    rewrite <- (digit_of_mod now1 10 10000), <- (digit_of_mod now2 10 10000) by done.
    rewrite <- (last_digit_of_mod now1 100000), <- (last_digit_of_mod now2 100000).
    change (100000 * (10 * 1))%N with 1000000%N.
    change (10000 * (10 * 10))%N with 1000000%N.
    change (1000 * (10 * 100))%N with 1000000%N.
    change (100 * (10 * 1000))%N with 1000000%N.
    change (10 * (10 * 10000))%N with 1000000%N.
    change (10 * 100000)%N with 1000000%N.
    by rewrite Heq.
Qed.

Lemma membershipNumber_collision_witness :
  (100000 ≤ 1730512345678)%N ∧ (100000 ≤ 1730513345678)%N ∧
  membershipNumber 1730512345678 = membershipNumber 1730513345678.
Proof.
  split; [lia|]. split; [lia|].
  apply (membershipNumber_collision 1730512345678 1730513345678); [lia|lia|reflexivity].
Defined.

(** ** The resolvers of the earlier version *)

Lemma addBook000_document input :
  in_title input ≠ "" → in_author input ≠ "" →
  ∃ doc, applySchema bookSchema (input_object input) = Ok doc
         ∧ Book_hydrate doc = Some (set_availableCopies 1 (book_of_input input)).
Proof.
  destruct input as [t a i c cat]. cbn [in_title in_author]. intros Ht Ha.
  destruct t as [|t0 t]; [done|]. destruct a as [|a0 a]; [done|].
  destruct cat as [cat|]; eexists; (split; vm_compute; reflexivity).
Qed.

(** X13. In the earlier version, addBook hands the input to Book.create as
    it is. The input carries the number of copies under the name copies,
    which is no path of the Book schema, so the number is not stored and the
    schema default applies: for an authenticated caller, a title and an
    author that are not empty and an ISBN no book has yet, the book is stored
    with exactly one available copy, whatever number of copies was asked
    for. *)
Theorem addBook000_one_copy (db : DB) (uid : N) (input : createBookInput) :
  in_title input ≠ "" → in_author input ≠ "" → ¬ isbn_exists (in_isbn input) db →
  run (Part000.addBook input (mkContext (Some uid))) db
  = (Ok (fresh (dom (books db)), set_availableCopies 1 (book_of_input input)),
     mkDB (<[fresh (dom (books db)) := set_availableCopies 1 (book_of_input input)]>
             (books db))
          (borrowings db)).
Proof.
  intros Ht Ha Hdup. unfold Part000.addBook. run_resolver.
  apply findOne_isbn_None in Hdup. rewrite Hdup. run_resolver.
  unfold exec_Book_create.
  destruct (addBook000_document input Ht Ha) as (doc & -> & ->).
  cbn [isbn book_of_input set_availableCopies]. by rewrite (existsb_find _ _ Hdup).
Qed.

Lemma addBook000_one_copy_witness :
  run (Part000.addBook (mkInput "Foundation" "Isaac Asimov" "978-0553293357" 5 None)
                       (mkContext (Some 1%N))) emptyDB
  = (Ok (0%N, mkBook "Foundation" "Isaac Asimov" None (Some "978-0553293357") 1),
     mkDB {[ 0%N := mkBook "Foundation" "Isaac Asimov" None (Some "978-0553293357") 1 ]}
          ∅).
Proof.
  apply (addBook000_one_copy emptyDB 1
           (mkInput "Foundation" "Isaac Asimov" "978-0553293357" 5 None)).
  - done.
  - done.
  - intros (id & b & Hb & _). cbn in Hb. by rewrite lookup_empty in Hb.
Defined.

(** The earlier borrowBook asks twice whether the member holds the book;
    nothing happens between the two questions, so the second answer is the
    first. *)
Lemma borrowBook000_run db uid bid now :
  run (Part000.borrowBook (ValidId bid) (mkContext (Some uid)) now) db
  = match books db !! bid with
    | None => (Err (Error "Book not found"), db)
    | Some b =>
        if bool_decide (availableCopies b ≤ 0)
        then (Err (Error "No copies available"), db)
        else
          match List.find (borrowing_matches uid bid false) (values (borrowings db)) with
          | Some _ => (Err (Error "Member has already borrowed this book"), db)
          | None =>
              let id := fresh (dom (borrowings db)) in
              let br := mkBorrowing uid bid now None false in
              let b' := set_availableCopies (availableCopies b - 1) b in
              (Ok (Some (id, br, Some b')),
               mkDB (<[bid := b']> (books db)) (<[id := br]> (borrowings db)))
          end
    end.
Proof.
  unfold Part000.borrowBook. run_resolver.
  destruct (books db !! bid) as [b|] eqn:Hb; [|done].
  destruct (bool_decide (availableCopies b ≤ 0)); [done|]. run_resolver.
  destruct (List.find _ _) eqn:Hfind; [done|]. run_resolver. rewrite Hfind.
  run_resolver. unfold exec_Borrowing_create, exec_Book_save.
  cbn [books borrowings fst snd run exec]. rewrite lookup_insert_eq.
  cbn [book run exec books]. rewrite (alter_Some _ _ _ b) by done.
  by rewrite lookup_insert_eq.
Qed.

(** X14. On a request with a well-formed book id, the earlier borrowBook and
    the one with error codes leave the same database; where the later one
    fails with an AppError the earlier one fails with a plain Error of the
    same message, and where the later one answers with the new loan the
    earlier one answers with the same loan, with the book as it is stored
    after the copy was taken. The second look-up of an active loan in the
    earlier version never changes the outcome. *)
Theorem borrowBook000_agrees (db : DB) (context : Context) (bid : ObjectId) (now : Z) :
  let old := run (Part000.borrowBook (ValidId bid) context now) db in
  let new := run (Part001.borrowBook (ValidId bid) context now) db in
  old.2 = new.2 ∧
  match new.1 with
  | Ok (id, br) =>
      ∃ b, books db !! bid = Some b ∧
           old.1 = Ok (Some (id, br, Some (set_availableCopies (availableCopies b - 1) b)))
  | Err (AppError message _) => old.1 = Err (Error message)
  | Err _ => False
  end.
Proof.
  destruct context as [[uid|]]; [|by split]. cbv zeta.
  rewrite borrowBook000_run.
  destruct (books db !! bid) as [b|] eqn:Hb;
    [|by rewrite (borrowBook_not_found _ _ _ _ Hb)].
  destruct (decide (availableCopies b ≤ 0)) as [Hle|Hgt].
  { rewrite (borrowBook_no_copies _ _ _ _ _ Hb Hle).
    by rewrite bool_decide_eq_true_2. }
  rewrite bool_decide_eq_false_2 by done.
  destruct (List.find _ _) as [br|] eqn:Hfind.
  - rewrite (borrowBook_already_borrowed _ _ _ _ b); [done..|lia|].
    apply find_values_Some in Hfind as [Hm [id Hid]].
    apply borrowing_matches_true in Hm. by exists id, br.
  - apply findOne_active_None in Hfind.
    rewrite (borrowBook_success _ _ _ _ b) by (done || lia).
    split; [done|]. by exists b.
Qed.

(** ** Two requests in flight *)

Lemma resume_0 {A X : Type} (q : Query X) (k : X → Prog A) (p : Prog A) (db : DB) :
  resume 0 [Await q k; p] db = ([k (exec q db).1; p], (exec q db).2).
Proof. unfold resume. cbn. by destruct (exec q db). Qed.

Lemma resume_1 {A X : Type} (q : Query X) (k : X → Prog A) (p : Prog A) (db : DB) :
  resume 1 [p; Await q k] db = ([p; k (exec q db).1], (exec q db).2).
Proof. unfold resume. cbn. by destruct (exec q db). Qed.



Lemma interleave_0 {A X : Type} (q : Query X) (k : X → Prog A) (p : Prog A)
    (sched : list nat) (db : DB) :
  interleave (0%nat :: sched) [Await q k; p] db
  = interleave sched [k (exec q db).1; p] (exec q db).2.
Proof. cbn [interleave]. by rewrite resume_0. Qed.

Lemma interleave_1 {A X : Type} (q : Query X) (k : X → Prog A) (p : Prog A)
    (sched : list nat) (db : DB) :
  interleave (1%nat :: sched) [p; Await q k] db
  = interleave sched [p; k (exec q db).1] (exec q db).2.
Proof. cbn [interleave]. by rewrite resume_1. Qed.

Lemma interleave_0_Throw {A : Type} (e : Exn) (p : Prog A) (sched : list nat) (db : DB) :
  interleave (0%nat :: sched) [Throw e; p] db = interleave sched [Throw e; p] db.
Proof. reflexivity. Qed.

Lemma interleave_1_Throw {A : Type} (e : Exn) (p : Prog A) (sched : list nat) (db : DB) :
  interleave (1%nat :: sched) [p; Throw e] db = interleave sched [p; Throw e] db.
Proof. reflexivity. Qed.

Lemma alter_insert_same {A : Type} (g : A → A) (m : gmap N A) (i : N) (x : A) :
  alter g i (<[i := x]> m) = <[i := g x]> m.
Proof.
  rewrite (alter_Some _ _ _ x) by apply lookup_insert_eq. apply insert_insert_eq.
Qed.

Lemma binary_lists_complete (sched : list nat) :
  Forall (λ i, i < 2)%nat sched → sched ∈ binary_lists (length sched).
Proof.
  induction 1 as [|i sched Hi _ IH]; cbn [length binary_lists]; [by left|].
  apply elem_of_app. destruct i as [|[|i]]; [left|right|lia];
    by apply list_elem_of_fmap_2.
Qed.

Lemma schedule_of_two (sched : list nat) :
  sched ≡ₚ [0; 0; 0; 0; 1; 1; 1; 1]%nat →
  sched ∈ binary_lists 8
  ∧ length (filter (λ i, i = 0%nat) sched) = 4%nat.
Proof.
  intros Hperm. split.
  - replace 8%nat with (length sched) by (by rewrite Hperm).
    apply binary_lists_complete. rewrite Hperm. repeat constructor.
  - by rewrite Hperm.
Qed.

Section ConcurrentReturn.
Variables (db : DB) (uid brid : N) (br : Borrowing) (b : Book) (now1 now2 : Z).
Hypothesis Hbr : borrowings db !! brid = Some br.
Hypothesis Hmember : member br = uid.
Hypothesis Hactive : returned br = false.
Hypothesis Hbook : books db !! book br = Some b.

(** The requests read and write the database at two keys only. *)
Lemma db_with_loan_and_book : db = with_loan_and_book db brid br (book br) b.
Proof.
  unfold with_loan_and_book. rewrite !insert_id by done. by destruct db.
Qed.

Lemma exec_read_loan loan bk :
  exec (Borrowing_findById brid) (with_loan_and_book db brid loan (book br) bk)
  = (Some loan, with_loan_and_book db brid loan (book br) bk).
Proof. cbn [exec with_loan_and_book borrowings]. by rewrite lookup_insert_eq. Qed.

Lemma exec_save_loan x loan bk :
  exec (Borrowing_save brid x) (with_loan_and_book db brid loan (book br) bk)
  = (tt, with_loan_and_book db brid
           (set_returned (returned x) (returnDate x) loan) (book br) bk).
Proof.
  cbn [exec]. unfold exec_Borrowing_save, with_loan_and_book. cbn [books borrowings].
  by rewrite alter_insert_same.
Qed.

Lemma exec_read_book loan bk :
  exec (Book_findById (book br)) (with_loan_and_book db brid loan (book br) bk)
  = (Some bk, with_loan_and_book db brid loan (book br) bk).
Proof. cbn [exec with_loan_and_book books]. by rewrite lookup_insert_eq. Qed.

Lemma exec_save_book x loan bk :
  exec (Book_save (book br) x) (with_loan_and_book db brid loan (book br) bk)
  = (tt, with_loan_and_book db brid loan (book br)
           (set_availableCopies (availableCopies x) bk)).
Proof.
  cbn [exec]. unfold exec_Book_save, with_loan_and_book. cbn [books borrowings].
  by rewrite alter_insert_same.
Qed.

Ltac return_calm :=
  cbn [fst snd try_catch negb book member returned returnDate borrowDate
       availableCopies set_returned set_availableCopies Part001.rethrow].

Ltac return_turn :=
  first [rewrite interleave_0|rewrite interleave_1
        |rewrite interleave_0_Throw|rewrite interleave_1_Throw];
  try first [rewrite exec_read_loan; return_calm;
             rewrite (bool_decide_eq_true_2 _ Hmember); rewrite ?Hactive
            |rewrite exec_save_loan|rewrite exec_read_book|rewrite exec_save_book];
  return_calm.

(** Runs the eight turns of one schedule, then reads the outcome. *)
Ltac return_case :=
  unfold before, reads_loan, saves_loan, reads_book, saves_book;
  cbn [turn_at Nat.eqb];
  match goal with
  | |- context [interleave ?s ?reqs db] =>
      let Hr := fresh "Hr" in
      eassert (Hr : interleave s reqs db = _);
      [ rewrite db_with_loan_and_book at 1;
        unfold Part001.returnBook; cbn [userId try_catch];
        do 8 return_turn; cbn [interleave]; reflexivity
      | rewrite Hr; clear Hr ]
  end;
  unfold copies_of, with_loan_and_book; cbn [fst snd books borrowings];
  rewrite !lookup_insert_eq; return_calm;
  repeat (first [intro | split]); try lia; try reflexivity.

(** The two owner's requests for one active loan, under every schedule of
    their eight turns. *)
Lemma concurrent_return_outcome (sched : list nat) :
  sched ≡ₚ [0; 0; 0; 0; 1; 1; 1; 1]%nat →
  let r := interleave sched
             [Part001.returnBook (ValidId brid) (mkContext (Some uid)) now1;
              Part001.returnBook (ValidId brid) (mkContext (Some uid)) now2] db in
  let ok := λ now, Return (brid, set_returned true (Some now) br) in
  let refused := Throw (AppError "Book already returned" "ALREADY_RETURNED") in
  let gain := copies_of (book br) r.2 - availableCopies b in
  let stored := λ now, borrowings r.2 !! brid = Some (set_returned true (Some now) br) in
  (before sched 0 saves_loan 1 reads_loan →
     r.1 = [ok now1; refused] ∧ gain = 1 ∧ stored now1)
  ∧ (before sched 1 saves_loan 0 reads_loan →
     r.1 = [refused; ok now2] ∧ gain = 1 ∧ stored now2)
  ∧ (before sched 0 reads_loan 1 saves_loan → before sched 1 reads_loan 0 saves_loan →
     r.1 = [ok now1; ok now2]
     ∧ (before sched 0 saves_book 1 reads_book ∨ before sched 1 saves_book 0 reads_book →
        gain = 2)
     ∧ (before sched 1 reads_book 0 saves_book → before sched 0 reads_book 1 saves_book →
        gain = 1)
     ∧ (before sched 0 saves_loan 1 saves_loan → stored now2)
     ∧ (before sched 1 saves_loan 0 saves_loan → stored now1)).
Proof.
  intros Hperm. apply schedule_of_two in Hperm as [Hin Hzero].
  cbv zeta. vm_compute in Hin.
  repeat (apply elem_of_cons in Hin as [->|Hin]);
    try (by apply elem_of_nil in Hin);
    try (vm_compute in Hzero; discriminate).
  all: clear Hzero.
  all: return_case.
Qed.
End ConcurrentReturn.

Section ConcurrentBorrow.
Variables (db : DB) (uid bid : N) (b : Book) (now1 now2 : Z).
Hypothesis Hbook : books db !! bid = Some b.
Hypothesis Hcopies : 0 < availableCopies b.
Hypothesis Hnone : ¬ has_active_borrowing uid bid db.

End ConcurrentBorrow.

(** X15. Two returnBook requests of the owner for one active loan of a
    stored book, in flight together, under every schedule that gives each of
    them four turns (a request that has settled lets its turns pass). If one
    request has saved the loan before the other reads it, the first succeeds,
    the other is refused with ALREADY_RETURNED and the book gains one copy.
    Otherwise both have read the loan as active: both succeed, and the loan
    keeps the return date of the request that saved it last. The book then
    gains two copies for the one loan when one request has saved the book
    before the other reads it, and one copy when both have read the book
    before either saves it. *)
Theorem concurrent_return_twice (db : DB) (uid brid : N) (br : Borrowing) (b : Book)
    (now1 now2 : Z) (sched : list nat) :
  borrowings db !! brid = Some br → member br = uid → returned br = false →
  books db !! book br = Some b →
  sched ≡ₚ [0; 0; 0; 0; 1; 1; 1; 1]%nat →
  let r := interleave sched
             [Part001.returnBook (ValidId brid) (mkContext (Some uid)) now1;
              Part001.returnBook (ValidId brid) (mkContext (Some uid)) now2] db in
  let ok := λ now, Return (brid, set_returned true (Some now) br) in
  let refused := Throw (AppError "Book already returned" "ALREADY_RETURNED") in
  let gain := copies_of (book br) r.2 - availableCopies b in
  let stored := λ now, borrowings r.2 !! brid = Some (set_returned true (Some now) br) in
  (before sched 0 saves_loan 1 reads_loan →
     r.1 = [ok now1; refused] ∧ gain = 1 ∧ stored now1)
  ∧ (before sched 1 saves_loan 0 reads_loan →
     r.1 = [refused; ok now2] ∧ gain = 1 ∧ stored now2)
  ∧ (before sched 0 reads_loan 1 saves_loan → before sched 1 reads_loan 0 saves_loan →
     r.1 = [ok now1; ok now2]
     ∧ (before sched 0 saves_book 1 reads_book ∨ before sched 1 saves_book 0 reads_book →
        gain = 2)
     ∧ (before sched 1 reads_book 0 saves_book → before sched 0 reads_book 1 saves_book →
        gain = 1)
     ∧ (before sched 0 saves_loan 1 saves_loan → stored now2)
     ∧ (before sched 1 saves_loan 0 saves_loan → stored now1)).
Proof.
  intros Hbr Hmember Hactive Hbook Hperm.
  exact (concurrent_return_outcome db uid brid br b now1 now2
           Hbr Hmember Hactive Hbook sched Hperm).
Qed.

Lemma concurrent_return_twice_witness :
  (interleave [0; 1; 0; 1; 0; 0; 1; 1]%nat
     [Part001.returnBook (ValidId 0) (mkContext (Some 1%N)) 2000;
      Part001.returnBook (ValidId 0) (mkContext (Some 1%N)) 2001] active_loan_db).1
  = [Return (0%N, mkBorrowing 1 0 1000 (Some 2000) true);
     Return (0%N, mkBorrowing 1 0 1000 (Some 2001) true)]
  ∧ copies_of 0
      (interleave [0; 1; 0; 1; 0; 0; 1; 1]%nat
         [Part001.returnBook (ValidId 0) (mkContext (Some 1%N)) 2000;
          Part001.returnBook (ValidId 0) (mkContext (Some 1%N)) 2001] active_loan_db).2
    - 0 = 2.
Proof.
  destruct (concurrent_return_twice active_loan_db 1 0
              (mkBorrowing 1 0 1000 None false) (dune 0) 2000 2001
              [0; 1; 0; 1; 0; 0; 1; 1]%nat)
    as (_ & _ & Hboth); try reflexivity.
  { apply (bool_decide_unpack _). by vm_compute. }
  destruct Hboth as (Hok & Htwo & _).
  - unfold before. cbn. lia.
  - unfold before. cbn. lia.
  - split; [exact Hok|]. apply Htwo. left. unfold before. cbn. lia.
Defined.

(** The schedule that takes the two requests in turn: both read the book
    before either saves it, both succeed, and the book gains one copy. *)
Example concurrent_return_in_turn :
  interleave [0; 1; 0; 1; 0; 1; 0; 1]%nat
    [Part001.returnBook (ValidId 0) (mkContext (Some 1%N)) 2000;
     Part001.returnBook (ValidId 0) (mkContext (Some 1%N)) 2001] active_loan_db
  = ([Return (0%N, mkBorrowing 1 0 1000 (Some 2000) true);
      Return (0%N, mkBorrowing 1 0 1000 (Some 2001) true)],
     mkDB {[ 0%N := dune 1 ]} {[ 0%N := mkBorrowing 1 0 1000 (Some 2001) true ]}).
Proof. vm_compute. reflexivity. Qed.



(** X17. For the member who holds the loan (or when no loan has the given
    id), the earlier returnBook and the one with error codes leave the same
    database and give the same answer: the same Borrowing on success, a plain
    Error with the message of the AppError on a refusal, and, when the book
    of the loan is gone, the TypeError that the later version reports as
    RETURN_BOOK_ERROR. The ownership test is the only difference between the
    two. *)
Theorem returnBook000_agrees (db : DB) (uid brid : N) (now : Z) :
  (∀ br, borrowings db !! brid = Some br → member br = uid) →
  let old := run (Part000.returnBook (ValidId brid) (mkContext (Some uid)) now) db in
  let new := run (Part001.returnBook (ValidId brid) (mkContext (Some uid)) now) db in
  old.2 = new.2 ∧
  match new.1, old.1 with
  | Ok r, Ok r' => r = r'
  | Err (AppError message _), Err (Error message') => message = message'
  | Err (AppError _ code), Err (TypeError _) => code = "RETURN_BOOK_ERROR"
  | _, _ => False
  end.
Proof.
  intros Howner. cbv zeta.
  destruct (borrowings db !! brid) as [br|] eqn:Hbr.
  - specialize (Howner br eq_refl).
    destruct (returned br) eqn:Hret.
    { rewrite (returnBook_already_returned _ _ _ _ br) by done.
      by rewrite (returnBook000_already_returned _ _ _ _ br). }
    destruct (books db !! book br) as [b|] eqn:Hb.
    + rewrite (returnBook_success _ _ _ _ br b) by done.
      by rewrite (returnBook000_success _ _ _ _ br b).
    + rewrite (returnBook_book_missing _ _ _ _ br) by done.
      by rewrite (returnBook000_book_missing _ _ _ _ br).
  - rewrite returnBook_not_found by done.
    unfold Part000.returnBook. run_resolver. by rewrite Hbr.
Qed.

Lemma returnBook000_agrees_witness :
  (run (Part000.returnBook (ValidId 0) (mkContext (Some 1%N)) 2000) active_loan_db).2
  = (run (Part001.returnBook (ValidId 0) (mkContext (Some 1%N)) 2000) active_loan_db).2.
Proof.
  apply (returnBook000_agrees active_loan_db 1 0 2000).
  intros br Hbr. cbn in Hbr. rewrite lookup_singleton_eq in Hbr. by injection Hbr as <-.
Defined.
